(** * State-diff aggregator: the merge, the ordering check and the list-file reader

    A shallow embedding of [index.ts].  The script reads a list of
    transaction hashes or simulation files, obtains the storage diff of each,
    checks that block numbers never go down, flattens the diffs and collapses
    them with [computeNetStateDiff] into one net diff.

    Layout: data model, a model of the JavaScript objects the merge uses as
    ordered dictionaries, the merge, the [main] pipeline with its external
    collaborators as section variables, then the properties. *)

From Stdlib Require Import String Ascii List ZArith NArith Bool Lia.
Import ListNotations.
Local Open Scope string_scope.
Local Open Scope list_scope.

(** ** Values of type [`0x${string}`]

    [Address] and [Slot] are both the template-literal type [`0x${string}`]:
    every value is the two characters [0x] followed by arbitrary text.  A
    value is represented by that text; [Hex.to_string] gives back the
    JavaScript string.  Comparison is string equality, case preserved. *)

Module Hex.

Inductive t : Type := Ox (digits : string).

Definition to_string (h : t) : string :=
  match h with Ox d => String "0" (String "x" d) end.

Definition eqb (a b : t) : bool :=
  match a, b with Ox x, Ox y => String.eqb x y end.

End Hex.

Definition Address : Type := Hex.t.
Definition Slot : Type := Hex.t.

(** ** Records of the upstream format *)

Module Raw.
Record t : Type := mk
  { address : Address; key : Slot; original : Slot; dirty : Slot }.
End Raw.

Module StateDiff.
(** The three decoded fields are declared [null]; upstream may fill them,
    the script never reads them.  [None] is [null]. *)
Record t : Type := mk
  { address : Address;
    raw : list Raw.t;
    soltype : option string;
    original : option string;
    dirty : option string }.
End StateDiff.

Module StorageValues.
Record t : Type := mk { original : Slot; dirty : Slot }.
End StorageValues.

Module TxData.
(** [blockNumber] is a [number] holding a block height, an integer. *)
Record t : Type := mk { stateDiff : list StateDiff.t; blockNumber : Z }.
End TxData.

(** ** Outcomes

    A JavaScript call either returns or throws.  [TypeError] is what reading a
    property of [undefined] raises and [SystemError] what a call of [node:fs]
    rejects with; the other constructors are the [Error]s the script builds
    itself, carrying the data their messages are made of. *)

Inductive Error : Type :=
| UnexpectedRawCount (stateDiff : StateDiff.t)
| NotOrdered (block1 block2 : Z)
| MissingFilePath
| ResolutionFailed (entry : string)
| SystemError (path : string)
| TypeError.

Inductive result (A : Type) : Type :=
| Ok (a : A)
| Throw (e : Error).
Arguments Ok {A} a.
Arguments Throw {A} e.

Definition bind {A B : Type} (r : result A) (k : A -> result B) : result B :=
  match r with
  | Ok a => k a
  | Throw e => Throw e
  end.

Declare Scope result_scope.
Delimit Scope result_scope with result.
Notation "x <- r ;; k" := (bind r (fun x => k))
  (at level 61, r at next level, right associativity) : result_scope.

Definition throws {A : Type} (r : result A) : Prop := exists e, r = Throw e.

(** ** Objects used as dictionaries

    [Record<K, V>] with [K = `0x${string}`] is an ordinary object.  Its own
    properties are kept in creation order.  [get] is a property read
    ([None] is [undefined]); no name inherited from [Object.prototype] starts
    with [0x], so a read only ever sees own properties.  [set] is an
    assignment: an existing property keeps its place, a new one is created
    last.  [entries] is [Object.entries]: array-index names first in
    ascending numeric order, then the remaining names in creation order. *)

Module JSObject.

Definition is_digit (c : ascii) : bool :=
  (48 <=? nat_of_ascii c)%nat && (nat_of_ascii c <=? 57)%nat.

Fixpoint decimal (acc : N) (s : string) : option N :=
  match s with
  | EmptyString => Some acc
  | String c rest =>
      if is_digit c
      then decimal (acc * 10 + N.of_nat (nat_of_ascii c - 48)) rest
      else None
  end.

(** A property name is an array index when it is the canonical decimal
    text of an integer below [2^32 - 1]. *)
Definition array_index (name : string) : option N :=
  match name with
  | EmptyString => None
  | String "0" EmptyString => Some 0%N
  | String "0" _ => None
  | _ =>
      match decimal 0 name with
      | Some n => if (n <? 4294967295)%N then Some n else None
      | None => None
      end
  end.

Section Obj.
Context {V : Type}.

Definition t : Type := list (Hex.t * V).

Definition empty : t := [].

Fixpoint get (o : t) (k : Hex.t) : option V :=
  match o with
  | [] => None
  | (k', v) :: rest => if Hex.eqb k' k then Some v else get rest k
  end.

Fixpoint set (o : t) (k : Hex.t) (v : V) : t :=
  match o with
  | [] => [(k, v)]
  | (k', v') :: rest =>
      if Hex.eqb k' k then (k', v) :: rest else (k', v') :: set rest k v
  end.

Definition keys (o : t) : list Hex.t := map fst o.

Definition index_of (p : Hex.t * V) : option N :=
  array_index (Hex.to_string (fst p)).

Definition is_index (p : Hex.t * V) : bool :=
  match index_of p with Some _ => true | None => false end.

Definition index_leb (p q : Hex.t * V) : bool :=
  match index_of p, index_of q with
  | Some m, Some n => (m <=? n)%N
  | _, _ => true
  end.

Fixpoint insert_by_index (p : Hex.t * V) (l : list (Hex.t * V)) :=
  match l with
  | [] => [p]
  | q :: rest =>
      if index_leb p q then p :: l else q :: insert_by_index p rest
  end.

Definition sort_by_index (l : list (Hex.t * V)) : list (Hex.t * V) :=
  fold_right insert_by_index [] l.

Definition entries (o : t) : list (Hex.t * V) :=
  sort_by_index (filter is_index o)
    ++ filter (fun p => negb (is_index p)) o.

End Obj.

Arguments t V : clear implicits.

End JSObject.

(** ** The merge: [computeNetStateDiff] *)

Definition NetStateDiff : Type :=
  JSObject.t (JSObject.t StorageValues.t).

(** Body of the inner [for (const raw of stateDiff.raw)] loop. *)
Definition visit (netStateDiff : NetStateDiff) (raw : Raw.t)
  : result NetStateDiff :=
  (* If we have not yet come across this address, initialize it. *)
  let net1 :=
    match JSObject.get netStateDiff (Raw.address raw) with
    | None => JSObject.set netStateDiff (Raw.address raw) JSObject.empty
    | Some _ => netStateDiff
    end in
  match JSObject.get net1 (Raw.address raw) with
  | None => Throw TypeError
  | Some slots =>
      (* If we have not yet come across this storage key, initialize it. *)
      let slots1 :=
        match JSObject.get slots (Raw.key raw) with
        | None =>
            JSObject.set slots (Raw.key raw)
              (StorageValues.mk (Raw.original raw) (Raw.dirty raw))
        | Some _ => slots
        end in
      match JSObject.get slots1 (Raw.key raw) with
      | None => Throw TypeError
      | Some values =>
          (* Always overwrite the dirty key with the latest. *)
          let values' :=
            StorageValues.mk (StorageValues.original values) (Raw.dirty raw) in
          Ok (JSObject.set net1 (Raw.address raw)
                (JSObject.set slots1 (Raw.key raw) values'))
      end
  end.

Fixpoint visit_raws (netStateDiff : NetStateDiff) (raws : list Raw.t)
  : result NetStateDiff :=
  match raws with
  | [] => Ok netStateDiff
  | raw :: rest =>
      (net' <- visit netStateDiff raw ;; visit_raws net' rest)%result
  end.

(** The first loop: one iteration per [stateDiff], throwing on the first
    entry whose [raw] does not have exactly one element. *)
Fixpoint accumulate (netStateDiff : NetStateDiff)
  (stateDiffs : list StateDiff.t) : result NetStateDiff :=
  match stateDiffs with
  | [] => Ok netStateDiff
  | stateDiff :: rest =>
      if negb (length (StateDiff.raw stateDiff) =? 1)%nat
      then Throw (UnexpectedRawCount stateDiff)
      else (net' <- visit_raws netStateDiff (StateDiff.raw stateDiff) ;;
            accumulate net' rest)%result
  end.

(** The second loop: back to the upstream format, one record per slot. *)
Definition to_records (netStateDiff : NetStateDiff) : list StateDiff.t :=
  flat_map
    (fun '(address, keyAndStorage) =>
       map
         (fun '(key, values) =>
            StateDiff.mk address
              [Raw.mk address key
                 (StorageValues.original values)
                 (StorageValues.dirty values)]
              None None None)
         (JSObject.entries keyAndStorage))
    (JSObject.entries netStateDiff).

Definition computeNetStateDiff (stateDiffs : list StateDiff.t)
  : result (list StateDiff.t) :=
  (net <- accumulate JSObject.empty stateDiffs ;; Ok (to_records net))%result.

(** ** Strings as the script handles them *)

(** [s.split(sep)] for a one-character separator: never empty, and
    [EmptyString] splits into one empty piece. *)
Fixpoint split (sep : ascii) (s : string) : list string :=
  match s with
  | EmptyString => [EmptyString]
  | String c rest =>
      if Ascii.eqb c sep then EmptyString :: split sep rest
      else
        match split sep rest with
        | [] => [String c EmptyString]
        | piece :: pieces => String c piece :: pieces
        end
  end.

(** [Boolean(s)] on a string: only the empty string is falsy. *)
Definition truthy (s : string) : bool := negb (String.eqb s EmptyString).

Definition startsWith (s pre : string) : bool := String.prefix pre s.

Definition newline : ascii := "010"%char.
Definition space : ascii := " "%char.

(** ** The [main] pipeline

    Effects are recorded as a trace of events next to the outcome: the
    requests made to the two diff sources, each call of the merge, and the
    calls of [exists], [mkdir] and [writeFile] that end a run.  An event
    records that the call was made, whatever its outcome. *)

Inductive Event : Type :=
| Fetch (transactionHash : string)
| ReadFile (path : string)
| Merge (stateDiffs : list StateDiff.t)
| FsExists (path : string)
| FsMkdir (path : string)
| WriteFile (outfile : string) (netStateDiff : list StateDiff.t).

Definition IO (A : Type) : Type := (list Event * result A)%type.

Definition io_ret {A : Type} (a : A) : IO A := ([], Ok a).

Definition io_bind {A B : Type} (m : IO A) (k : A -> IO B) : IO B :=
  match m with
  | (tr, Ok a) => let (tr', r) := k a in (tr ++ tr', r)
  | (tr, Throw e) => (tr, Throw e)
  end.

Definition emit (e : Event) : IO unit := ([e], Ok tt).

Definition lift {A : Type} (r : result A) : IO A := ([], r).

Declare Scope io_scope.
Delimit Scope io_scope with io.
Notation "x <- m ;; k" := (io_bind m (fun x => k))
  (at level 61, m at next level, right associativity) : io_scope.

(** The assertion that block numbers never decrease, index by index as the
    [for (let i = 1; i < txData.length; i++)] loop runs. *)
Fixpoint check_indices (txData : list TxData.t) (indices : list nat)
  : result unit :=
  match indices with
  | [] => Ok tt
  | i :: rest =>
      match nth_error txData i, nth_error txData (i - 1) with
      | Some cur, Some prev =>
          if (TxData.blockNumber cur <? TxData.blockNumber prev)%Z
          then Throw (NotOrdered (TxData.blockNumber prev)
                        (TxData.blockNumber cur))
          else check_indices txData rest
      | _, _ => Throw TypeError
      end
  end.

Definition check_ordering (txData : list TxData.t) : result unit :=
  check_indices txData (seq 1 (length txData - 1)).

(** The identifiers the reading loop hands to [getStateDiff], line by line:
    [split("\n").filter(Boolean)], the two [startsWith] tests and the first
    element of [line.split(" ")]. *)
Definition lines_of (fileContent : string) : list string :=
  filter truthy (split newline fileContent).

Definition is_comment (line : string) : bool :=
  startsWith line "#" || startsWith line "//".

(** ** The name of the output file *)

(** [s.replace(pattern, "")] with a string pattern: the first occurrence of
    the pattern is removed, the rest is kept. *)
Fixpoint drop (n : nat) (s : string) : string :=
  match n, s with
  | O, _ => s
  | S _, EmptyString => EmptyString
  | S n', String _ rest => drop n' rest
  end.

Fixpoint remove_first (pattern s : string) : string :=
  match s with
  | EmptyString => EmptyString
  | String c rest =>
      if String.prefix pattern s then drop (String.length pattern) s
      else String c (remove_first pattern rest)
  end.

Section OutputName.

(** [basename] and [extname] of [node:path]. *)
Variable basename : string -> string.
Variable extname : string -> string.

Definition outDir : string := "out".

Definition outfile (filePath : string) : string :=
  (outDir ++ "/net-state-diff-"
     ++ remove_first (extname filePath) (basename filePath)
     ++ ".json")%string.

End OutputName.

Section Main.

(** External collaborators: the remote diff source (the answer to a
    transaction hash, an error when the response is not ok), the file
    system read of the list file, the simulation-file source (read, parse
    and projection), the three file-system calls that end a run, each of
    which may reject, and [basename] and [extname] of [node:path]. *)
Variable tenderly : string -> result TxData.t.
Variable readFile : string -> result string.
Variable simulation : string -> result TxData.t.
Variable exists_ : string -> result bool.
Variable mkdir : string -> result unit.
Variable writeFile : string -> list StateDiff.t -> result unit.
Variable basename : string -> string.
Variable extname : string -> string.

Definition getStateDiff (transactionHashOrFilePath : string)
  : IO TxData.t :=
  if startsWith transactionHashOrFilePath "0x"
  then (_ <- emit (Fetch transactionHashOrFilePath) ;;
        lift (tenderly transactionHashOrFilePath))%io
  else (_ <- emit (ReadFile transactionHashOrFilePath) ;;
        lift (simulation transactionHashOrFilePath))%io.

(** [for (const line of lines)], with [txData] the array pushed to. *)
Fixpoint resolve_lines (lines : list string) (txData : list TxData.t)
  : IO (list TxData.t) :=
  match lines with
  | [] => io_ret txData
  | line :: rest =>
      if is_comment line then resolve_lines rest txData
      else
        match split space line with
        | [] => lift (Throw TypeError)
        | transactionHashOrFilePath :: _ =>
            (sim <- getStateDiff transactionHashOrFilePath ;;
             resolve_lines rest (txData ++ [sim]))%io
        end
  end.

(** The last block of [main]: the output directory is created when it is
    not there, then the net diff is written under the name made from the
    list file's. *)
Definition write_output (filePath : string)
  (netStateDiff : list StateDiff.t) : IO unit :=
  (present <- (_ <- emit (FsExists outDir) ;; lift (exists_ outDir)) ;;
   _ <- (if negb present
         then (_ <- emit (FsMkdir outDir) ;; lift (mkdir outDir))
         else io_ret tt) ;;
   let outfile := outfile basename extname filePath in
   _ <- emit (WriteFile outfile netStateDiff) ;;
   lift (writeFile outfile netStateDiff))%io.

Definition main (argv2 : option string) : IO unit :=
  match argv2 with
  | None => lift (Throw MissingFilePath)
  | Some filePath =>
      if negb (truthy filePath) then lift (Throw MissingFilePath)
      else
        (fileContent <- (_ <- emit (ReadFile filePath) ;;
                         lift (readFile filePath)) ;;
         txData <- resolve_lines (lines_of fileContent) [] ;;
         _ <- lift (check_ordering txData) ;;
         let stateDiffs := flat_map TxData.stateDiff txData in
         netStateDiff <- (_ <- emit (Merge stateDiffs) ;;
                          lift (computeNetStateDiff stateDiffs)) ;;
         write_output filePath netStateDiff)%io
  end.

(** The possible runs of [main]. *)
Inductive main_run (filePath : string) : IO unit -> Prop :=
| run_unreadable e :
    readFile filePath = Throw e ->
    main_run filePath ([ReadFile filePath], Throw e)
| run_unresolved fileContent tr e :
    readFile filePath = Ok fileContent ->
    resolve_lines (lines_of fileContent) [] =
      (tr, Throw e) ->
    main_run filePath (ReadFile filePath :: tr, Throw e)
| run_unordered fileContent tr txData e :
    readFile filePath = Ok fileContent ->
    resolve_lines (lines_of fileContent) [] =
      (tr, Ok txData) ->
    check_ordering txData = Throw e ->
    main_run filePath (ReadFile filePath :: tr, Throw e)
| run_unmerged fileContent tr txData e :
    readFile filePath = Ok fileContent ->
    resolve_lines (lines_of fileContent) [] =
      (tr, Ok txData) ->
    check_ordering txData = Ok tt ->
    computeNetStateDiff (flat_map TxData.stateDiff txData) = Throw e ->
    main_run filePath
      (ReadFile filePath :: tr ++ [Merge (flat_map TxData.stateDiff txData)],
       Throw e)
| run_merged fileContent tr txData netStateDiff :
    readFile filePath = Ok fileContent ->
    resolve_lines (lines_of fileContent) [] =
      (tr, Ok txData) ->
    check_ordering txData = Ok tt ->
    computeNetStateDiff (flat_map TxData.stateDiff txData) =
      Ok netStateDiff ->
    main_run filePath
      (ReadFile filePath :: tr ++
         Merge (flat_map TxData.stateDiff txData)
           :: fst (write_output filePath netStateDiff),
       snd (write_output filePath netStateDiff)).

End Main.

(** ** Vocabulary of the properties *)

(** The raw diffs of an input, in input order. *)
Definition raws_of (stateDiffs : list StateDiff.t) : list Raw.t :=
  flat_map StateDiff.raw stateDiffs.

Definition pair_of (raw : Raw.t) : Address * Slot :=
  (Raw.address raw, Raw.key raw).

(** The [(address, key)] pairs an input touches, with repetitions. *)
Definition pairs_of (stateDiffs : list StateDiff.t) : list (Address * Slot) :=
  map pair_of (raws_of stateDiffs).

Definition on_pair (a : Address) (k : Slot) (raw : Raw.t) : bool :=
  Hex.eqb (Raw.address raw) a && Hex.eqb (Raw.key raw) k.

Definition touches (a : Address) (k : Slot) (stateDiff : StateDiff.t) : bool :=
  existsb (on_pair a k) (StateDiff.raw stateDiff).

(** First and last raw diff on a pair, in input order. *)
Definition first_on (a : Address) (k : Slot) (raws : list Raw.t)
  : option Raw.t := find (on_pair a k) raws.

Definition last_on (a : Address) (k : Slot) (raws : list Raw.t)
  : option Raw.t := find (on_pair a k) (rev raws).

(** The records of an output that concern one pair. *)
Definition emitted_for (a : Address) (k : Slot) (out : list StateDiff.t)
  : list StateDiff.t := filter (touches a k) out.

(** A record in the upstream shape holding one merged raw diff. *)
Definition record (a : Address) (k o d : Slot) : StateDiff.t :=
  StateDiff.mk a [Raw.mk a k o d] None None None.

Definition one_raw (stateDiff : StateDiff.t) : Prop :=
  length (StateDiff.raw stateDiff) = 1%nat.

(** First-seen order, as the specification words it: a list with every
    later repetition of an element removed. *)
Fixpoint first_seen (l : list Hex.t) : list Hex.t :=
  match l with
  | [] => []
  | x :: rest => x :: filter (fun y => negb (Hex.eqb y x)) (first_seen rest)
  end.

Definition addresses (raws : list Raw.t) : list Address :=
  map Raw.address raws.

Definition keys_at (a : Address) (raws : list Raw.t) : list Slot :=
  map Raw.key (filter (fun r => Hex.eqb (Raw.address r) a) raws).

(** Address groups in the order each address was first encountered; within
    a group, keys in the order each key was first encountered there. *)
Definition expected_order (raws : list Raw.t) : list (Address * Slot) :=
  flat_map (fun a => map (fun k => (a, k)) (first_seen (keys_at a raws)))
    (first_seen (addresses raws)).

(** Non-decreasing block numbers, adjacent pair by adjacent pair. *)
Definition decreases_at (txData : list TxData.t) (i : nat) : Prop :=
  exists prev cur,
    nth_error txData i = Some prev /\
    nth_error txData (S i) = Some cur /\
    (TxData.blockNumber cur < TxData.blockNumber prev)%Z.

Definition in_block_order (txData : list TxData.t) : Prop :=
  forall i prev cur,
    nth_error txData i = Some prev ->
    nth_error txData (S i) = Some cur ->
    (TxData.blockNumber prev <= TxData.blockNumber cur)%Z.

(** ** The list file, as the specification words it

    Blank lines are ignored, lines beginning with [#] or [//] are skipped,
    and of every other line the first whitespace-delimited token is the
    identifier. *)

Module ListFileSpec.

Definition is_whitespace (c : ascii) : bool :=
  let n := nat_of_ascii c in
  (n =? 32)%nat || ((9 <=? n)%nat && (n <=? 13)%nat).

Fixpoint is_blank (line : string) : bool :=
  match line with
  | EmptyString => true
  | String c rest => is_whitespace c && is_blank rest
  end.

Fixpoint skip_whitespace (s : string) : string :=
  match s with
  | EmptyString => EmptyString
  | String c rest => if is_whitespace c then skip_whitespace rest else s
  end.

Fixpoint take_token (s : string) : string :=
  match s with
  | EmptyString => EmptyString
  | String c rest =>
      if is_whitespace c then EmptyString else String c (take_token rest)
  end.

Definition first_token (line : string) : string :=
  take_token (skip_whitespace line).

Definition identifiers (fileContent : string) : list string :=
  flat_map
    (fun line =>
       if is_blank line then []
       else if is_comment line then []
       else [first_token line])
    (split newline fileContent).

End ListFileSpec.

(** The list file, as the script reads it: empty lines are dropped, lines
    beginning with [#] or [//] are skipped, and of every other line the text
    before its first space character is the identifier. *)

Module ListFile.

Fixpoint before_space (line : string) : string :=
  match line with
  | EmptyString => EmptyString
  | String c rest =>
      if Ascii.eqb c space then EmptyString
      else String c (before_space rest)
  end.

Definition identifiers (fileContent : string) : list string :=
  flat_map
    (fun line =>
       if String.eqb line EmptyString then []
       else if is_comment line then []
       else [before_space line])
    (split newline fileContent).

(** Lines on which the two readings agree: the space is the only
    whitespace character used, and no line starts with one. *)
Fixpoint only_spaces (line : string) : bool :=
  match line with
  | EmptyString => true
  | String c rest =>
      (Ascii.eqb c space || negb (ListFileSpec.is_whitespace c))
        && only_spaces rest
  end.

Definition plain_line (line : string) : bool :=
  only_spaces line && negb (startsWith line " ").

Definition plain (fileContent : string) : bool :=
  forallb plain_line (split newline fileContent).

End ListFile.

Section Resolve.

Variable tenderly : string -> result TxData.t.
Variable simulation : string -> result TxData.t.

(** [getStateDiff] applied to each identifier in turn, stopping at the
    first failure. *)
Fixpoint resolve_each (identifiers : list string) (txData : list TxData.t)
  : IO (list TxData.t) :=
  match identifiers with
  | [] => io_ret txData
  | identifier :: rest =>
      (sim <- getStateDiff tenderly simulation identifier ;;
       resolve_each rest (txData ++ [sim]))%io
  end.

End Resolve.

Definition is_merge (e : Event) : bool :=
  match e with Merge _ => true | _ => false end.

Definition is_write (e : Event) : bool :=
  match e with WriteFile _ _ => true | _ => false end.

(** Events of the two diff sources and of the list-file read. *)
Definition request (e : Event) : bool :=
  match e with
  | Fetch _ | ReadFile _ => true
  | _ => false
  end.

(** ** The merge, step by step

    Definitions the proofs use to describe the accumulator of the first
    loop and the records of the second. *)

(** The object stored under an address, empty when there is none. *)
Definition slots_of (net : NetStateDiff) (a : Address)
  : JSObject.t StorageValues.t :=
  match JSObject.get net a with Some slots => slots | None => [] end.

(** What one iteration of the inner loop stores for its key, and the
    accumulator it leaves behind. *)
Definition merged (slots : JSObject.t StorageValues.t) (raw : Raw.t)
  : StorageValues.t :=
  match JSObject.get slots (Raw.key raw) with
  | Some values =>
      StorageValues.mk (StorageValues.original values) (Raw.dirty raw)
  | None => StorageValues.mk (Raw.original raw) (Raw.dirty raw)
  end.

Definition upsert (net : NetStateDiff) (raw : Raw.t) : NetStateDiff :=
  let slots := slots_of net (Raw.address raw) in
  JSObject.set net (Raw.address raw)
    (JSObject.set slots (Raw.key raw) (merged slots raw)).

(** The accumulator after a run of raw diffs. *)
Definition net_of (raws : list Raw.t) : NetStateDiff :=
  fold_left upsert raws JSObject.empty.

(** What is stored for a pair: original of its first diff, dirty of its
    last. *)
Definition values_on (a : Address) (k : Slot) (raws : list Raw.t)
  : option StorageValues.t :=
  match first_on a k raws, last_on a k raws with
  | Some f, Some l => Some (StorageValues.mk (Raw.original f) (Raw.dirty l))
  | _, _ => None
  end.

(** The records emitted for one pair. *)
Definition net_record (raws : list Raw.t) (p : Address * Slot)
  : list StateDiff.t :=
  match values_on (fst p) (snd p) raws with
  | Some v =>
      [record (fst p) (snd p) (StorageValues.original v)
         (StorageValues.dirty v)]
  | None => []
  end.

(** The second loop, per slot and per address. *)
Definition slot_record (a : Address) (k : Slot) (v : StorageValues.t)
  : list StateDiff.t :=
  [record a k (StorageValues.original v) (StorageValues.dirty v)].

Definition address_records (a : Address) (s : JSObject.t StorageValues.t)
  : list StateDiff.t :=
  flat_map (fun q => slot_record a (fst q) (snd q)) s.

(** The raw diff the second loop writes for a slot. *)
Definition raw_at (a : Address) (q : Hex.t * StorageValues.t) : Raw.t :=
  Raw.mk a (fst q) (StorageValues.original (snd q))
    (StorageValues.dirty (snd q)).

(** Accumulators the first loop can produce: distinct addresses, and under
    each a non-empty object with distinct keys. *)
Definition normal (net : NetStateDiff) : Prop :=
  NoDup (JSObject.keys net) /\
  Forall (fun p => snd p <> [] /\ NoDup (JSObject.keys (snd p))) net.
(** ** The rest of the script *)

(** Where [getStateDiff] takes an identifier from, and the request it makes:
    the remote source for text starting with [0x], a file otherwise. *)
Definition source (tenderly simulation : string -> result TxData.t)
  (identifier : string) : result TxData.t :=
  if startsWith identifier "0x" then tenderly identifier
  else simulation identifier.

Definition event_of (identifier : string) : Event :=
  if startsWith identifier "0x" then Fetch identifier
  else ReadFile identifier.



(** [pieces.join(sep)] for a one-character separator. *)
Fixpoint join (sep : ascii) (pieces : list string) : string :=
  match pieces with
  | [] => EmptyString
  | piece :: rest =>
      match rest with
      | [] => piece
      | _ :: _ => (piece ++ String sep (join sep rest))%string
      end
  end.

Fixpoint contains (c : ascii) (s : string) : bool :=
  match s with
  | EmptyString => false
  | String c' rest => Ascii.eqb c' c || contains c rest
  end.

(** Positions of a list of results, for statements about any two of them. *)
Definition block_at (txData : list TxData.t) (i : nat) : option Z :=
  option_map TxData.blockNumber (nth_error txData i).

(** ** Worked inputs *)

Module Example.

Definition addr1 : Address := Hex.Ox "a1".
Definition addr2 : Address := Hex.Ox "a2".
Definition key1 : Slot := Hex.Ox "01".
Definition key2 : Slot := Hex.Ox "02".
Definition key3 : Slot := Hex.Ox "03".
Definition value (digits : string) : Slot := Hex.Ox digits.

(** Transaction A then transaction B of the script's header comment. *)
Definition transactions : list StateDiff.t :=
[ record addr1 key1 (value "00") (value "01");
  record addr1 key2 (value "02") (value "03");
  record addr2 key3 (value "04") (value "05");
  record addr1 key1 (value "01") (value "06") ].

Definition net : list StateDiff.t :=
[ record addr1 key1 (value "00") (value "06");
  record addr1 key2 (value "02") (value "03");
  record addr2 key3 (value "04") (value "05") ].

Definition no_raw : StateDiff.t := StateDiff.mk addr1 [] None None None.

Definition blocks (numbers : list Z) : list TxData.t :=
map (TxData.mk []) numbers.

(** A remote source that knows three transactions, in blocks 5, 7 and 6. *)
Definition tenderly (transactionHash : string) : result TxData.t :=
if String.eqb transactionHash "0xaa" then Ok (TxData.mk [] 5)
else if String.eqb transactionHash "0xbb" then Ok (TxData.mk [] 7)
else if String.eqb transactionHash "0xcc" then Ok (TxData.mk [] 6)
else Throw (ResolutionFailed transactionHash).

Definition simulation (path : string) : result TxData.t :=
Throw (ResolutionFailed path).

Definition line_feed : string := String newline EmptyString.
Definition tab : string := String "009"%char EmptyString.

Definition out_of_order : string :=
("0xaa # first" ++ line_feed ++ "0xbb" ++ line_feed ++ "0xcc")%string.

Definition in_order : string :=
("# two transactions" ++ line_feed ++ line_feed ++ "0xaa" ++ line_feed
   ++ "0xbb # second")%string.

Definition readFile (path : string) : result string :=
if String.eqb path "unordered.txt" then Ok out_of_order
else if String.eqb path "ordered.txt" then Ok in_order
else Throw (ResolutionFailed path).

(** A file system in which the output directory is missing and every call
    succeeds, and the two [node:path] functions on names without directory
    and with the extension [.txt]. *)
Definition exists_ (path : string) : result bool := Ok false.
Definition mkdir (path : string) : result unit := Ok tt.
Definition writeFile (outfile : string) (netStateDiff : list StateDiff.t)
  : result unit := Ok tt.
Definition basename (path : string) : string := path.
Definition extname (path : string) : string := ".txt".

Definition tab_separated : string := ("0xaa" ++ tab ++ "note")%string.

End Example.

(** What two consecutive runs of diffs store for a pair. *)
Definition values_then (first second : option StorageValues.t)
  : option StorageValues.t :=
  match first, second with
  | Some v1, Some v2 =>
      Some (StorageValues.mk (StorageValues.original v1)
              (StorageValues.dirty v2))
  | Some v1, None => Some v1
  | None, second => second
  end.

(** More worked inputs. *)

Module Scenario.

(** The header example with another address and decoded fields on every
    entry, the raw lists untouched. *)
Definition relabelled : list StateDiff.t :=
  map (fun sd =>
         StateDiff.mk Example.addr2 (StateDiff.raw sd)
           (Some "uint256") (Some "0") (Some "1"))
    Example.transactions.

Definition two_raws : StateDiff.t :=
  StateDiff.mk Example.addr1
    [Raw.mk Example.addr1 Example.key1 (Example.value "00")
       (Example.value "01");
     Raw.mk Example.addr1 Example.key2 (Example.value "02")
       (Example.value "03")]
    None None None.

(** A list file whose second identifier is unknown to the remote source. *)
Definition failing_list : string :=
  ("0xaa" ++ Example.line_feed ++ "0xdd # unknown" ++ Example.line_feed
     ++ "0xbb")%string.

(** A list file with a comment and empty lines only. *)
Definition comments_only : string :=
  ("# nothing yet" ++ Example.line_feed ++ Example.line_feed
     ++ "// later" ++ Example.line_feed)%string.

Definition readFile (path : string) : result string :=
  if String.eqb path "empty.txt" then Ok comments_only
  else Example.readFile path.

Definition basename (path : string) : string := "op.txt".
Definition extname (path : string) : string := ".txt".

(** A file system in which the output directory is there but cannot be
    written to. *)
Definition exists_ (path : string) : result bool := Ok true.
Definition writeFile (outfile : string) (netStateDiff : list StateDiff.t)
  : result unit := Throw (SystemError outfile).

End Scenario.

(** * Properties *)

(** ** Equality on [`0x${string}`] values *)

Lemma Hex_eqb_spec (a b : Hex.t) : reflect (a = b) (Hex.eqb a b).
Proof.
  destruct a as [x], b as [y]; simpl.
  destruct (String.eqb_spec x y) as [->|N]; constructor; congruence.
Qed.

Lemma Hex_eqb_refl (a : Hex.t) : Hex.eqb a a = true.
Proof. destruct (Hex_eqb_spec a a); congruence. Qed.

Lemma Hex_eqb_eq (a b : Hex.t) : Hex.eqb a b = true <-> a = b.
Proof. destruct (Hex_eqb_spec a b); split; congruence. Qed.

Lemma Hex_eqb_neq (a b : Hex.t) : Hex.eqb a b = false <-> a <> b.
Proof. destruct (Hex_eqb_spec a b); split; congruence. Qed.

Lemma Hex_eq_dec (a b : Hex.t) : {a = b} + {a <> b}.
Proof. destruct (Hex_eqb_spec a b); [left|right]; assumption. Qed.

(** ** Objects: reads, writes and enumeration *)

Section ObjectFacts.
Context {V : Type}.
Implicit Types (o : JSObject.t V) (k : Hex.t) (v : V).

(** A name that starts with [0x] is never an array index. *)
Lemma is_index_false (p : Hex.t * V) : JSObject.is_index p = false.
Proof. destruct p as [[d] v]; reflexivity. Qed.

(** Hence [Object.entries] lists the properties in creation order. *)
Lemma entries_creation_order o : JSObject.entries o = o.
Proof.
  unfold JSObject.entries.
  assert (F : filter JSObject.is_index o = []).
  { induction o as [|p o IH]; cbn [filter]; [reflexivity|].
    now rewrite is_index_false. }
  assert (T : filter (fun p => negb (JSObject.is_index p)) o = o).
  { clear F; induction o as [|p o IH]; cbn [filter]; [reflexivity|].
    rewrite is_index_false; cbn [negb]. now rewrite IH. }
  now rewrite F, T.
Qed.

Lemma get_set_same o k v : JSObject.get (JSObject.set o k v) k = Some v.
Proof.
  induction o as [|[k' v'] o IH]; simpl.
  - now rewrite Hex_eqb_refl.
  - destruct (Hex.eqb k' k) eqn:E; simpl; rewrite E; auto.
Qed.

Lemma get_set_other o k k' v :
  k <> k' -> JSObject.get (JSObject.set o k v) k' = JSObject.get o k'.
Proof.
  intros N; induction o as [|[k0 v0] o IH]; simpl.
  - apply Hex_eqb_neq in N; now rewrite N.
  - destruct (Hex_eqb_spec k0 k) as [->|E]; simpl.
    + apply Hex_eqb_neq in N; now rewrite N.
    + now rewrite IH.
Qed.

Lemma get_none_iff o k :
  JSObject.get o k = None <-> ~ In k (JSObject.keys o).
Proof.
  induction o as [|[k' v'] o IH]; simpl; [tauto|].
  destruct (Hex_eqb_spec k' k) as [->|E].
  - split; [discriminate|tauto].
  - rewrite IH; tauto.
Qed.

Lemma in_get_some o k v :
  NoDup (JSObject.keys o) -> In (k, v) o -> JSObject.get o k = Some v.
Proof.
  induction o as [|[k' v'] o IH]; simpl; [tauto|].
  intros ND [H|H]; inversion ND as [|? ? NI ND']; subst.
  - inversion H; subst; now rewrite Hex_eqb_refl.
  - destruct (Hex_eqb_spec k' k) as [->|E]; [|auto].
    exfalso; apply NI. change k with (fst (k, v)). now apply in_map.
Qed.

Lemma set_absent o k v :
  JSObject.get o k = None -> JSObject.set o k v = o ++ [(k, v)].
Proof.
  induction o as [|[k' v'] o IH]; simpl; [reflexivity|].
  destruct (Hex.eqb k' k); [discriminate|].
  intros H; now rewrite IH.
Qed.

Lemma set_present_keys o k v v0 :
  JSObject.get o k = Some v0 ->
  JSObject.keys (JSObject.set o k v) = JSObject.keys o.
Proof.
  induction o as [|[k' v'] o IH]; simpl; [discriminate|].
  destruct (Hex.eqb k' k); simpl; [reflexivity|].
  intros H; f_equal; auto.
Qed.

Lemma keys_set o k v :
  JSObject.keys (JSObject.set o k v) =
  match JSObject.get o k with
  | Some _ => JSObject.keys o
  | None => JSObject.keys o ++ [k]
  end.
Proof.
  destruct (JSObject.get o k) eqn:G.
  - eapply set_present_keys; eauto.
  - rewrite set_absent by assumption. unfold JSObject.keys.
    now rewrite map_app.
Qed.

Lemma set_set o k v v' :
  JSObject.set (JSObject.set o k v) k v' = JSObject.set o k v'.
Proof.
  induction o as [|[k0 v0] o IH]; simpl.
  - now rewrite Hex_eqb_refl.
  - destruct (Hex.eqb k0 k) eqn:E; simpl; rewrite E; [reflexivity|].
    now rewrite IH.
Qed.

Lemma get_app_last o k v :
  JSObject.get o k = None -> JSObject.get (o ++ [(k, v)]) k = Some v.
Proof.
  intros H. rewrite <- (set_absent _ _ v H). apply get_set_same.
Qed.

Lemma set_app_last o k v v' :
  JSObject.get o k = None ->
  JSObject.set (o ++ [(k, v)]) k v' = o ++ [(k, v')].
Proof.
  intros H. rewrite <- (set_absent _ _ v H), set_set.
  now apply set_absent.
Qed.

End ObjectFacts.

(** ** One step of the merge

    [visit] never reaches its [TypeError] branches: it always returns
    [upsert] of its arguments. *)

Lemma visit_upsert (net : NetStateDiff) (raw : Raw.t) :
  visit net raw = Ok (upsert net raw).
Proof.
  unfold visit, upsert, slots_of, merged; cbv zeta.
  destruct (JSObject.get net (Raw.address raw)) as [slots|] eqn:G.
  - rewrite G.
    destruct (JSObject.get slots (Raw.key raw)) as [values|] eqn:S.
    + rewrite S. reflexivity.
    + rewrite get_set_same. cbn [StorageValues.original].
      now rewrite set_set.
  - rewrite get_set_same. cbn [JSObject.empty JSObject.get JSObject.set].
    rewrite Hex_eqb_refl. cbn [StorageValues.original].
    now rewrite set_set.
Qed.

Lemma visit_raws_fold (raws : list Raw.t) (net : NetStateDiff) :
  visit_raws net raws = Ok (fold_left upsert raws net).
Proof.
  revert net; induction raws as [|r raws IH]; intros net; simpl.
  - reflexivity.
  - rewrite visit_upsert; simpl. apply IH.
Qed.

Lemma accumulate_fold (stateDiffs : list StateDiff.t) (net : NetStateDiff) :
  Forall one_raw stateDiffs ->
  accumulate net stateDiffs = Ok (fold_left upsert (raws_of stateDiffs) net).
Proof.
  intros F; revert net; induction F as [|sd sds H F IH]; intros net; simpl.
  - reflexivity.
  - unfold one_raw in H. rewrite H; simpl.
    rewrite visit_raws_fold; simpl. rewrite IH.
    unfold raws_of; simpl. now rewrite fold_left_app.
Qed.

Lemma accumulate_throw (stateDiffs : list StateDiff.t) (net : NetStateDiff) :
  Exists (fun sd => ~ one_raw sd) stateDiffs ->
  exists sd, In sd stateDiffs /\ ~ one_raw sd /\
             accumulate net stateDiffs = Throw (UnexpectedRawCount sd).
Proof.
  intros E; revert net; induction stateDiffs as [|sd sds IH]; intros net.
  - inversion E.
  - simpl. destruct (Nat.eqb_spec (length (StateDiff.raw sd)) 1) as [L|L]; simpl.
    + assert (E' : Exists (fun sd => ~ one_raw sd) sds).
      { inversion E; subst; [contradiction|assumption]. }
      rewrite visit_raws_fold; simpl.
      destruct (IH E' (fold_left upsert (StateDiff.raw sd) net))
        as (bad & I & B & A).
      exists bad; repeat split; auto.
    + exists sd; repeat split; auto.
Qed.

(** ** First-seen order *)

Lemma existsb_hex (x : Hex.t) (l : list Hex.t) :
  existsb (Hex.eqb x) l = true <-> In x l.
Proof.
  rewrite existsb_exists; split.
  - intros (y & I & E). apply Hex_eqb_eq in E. now subst.
  - intros I. exists x. split; [assumption|apply Hex_eqb_refl].
Qed.

Lemma first_seen_in (l : list Hex.t) (x : Hex.t) :
  In x (first_seen l) <-> In x l.
Proof.
  induction l as [|y l IH]; simpl; [tauto|].
  rewrite filter_In, IH.
  destruct (Hex_eqb_spec x y) as [->|N]; simpl; intuition congruence.
Qed.

Lemma first_seen_NoDup (l : list Hex.t) : NoDup (first_seen l).
Proof.
  induction l as [|y l IH]; simpl; constructor.
  - rewrite filter_In, Hex_eqb_refl. simpl. intros [_ H]; discriminate.
  - now apply NoDup_filter.
Qed.

Lemma first_seen_snoc (l : list Hex.t) (x : Hex.t) :
  first_seen (l ++ [x]) =
  if existsb (Hex.eqb x) l then first_seen l else first_seen l ++ [x].
Proof.
  induction l as [|y l IH]; simpl; [reflexivity|].
  rewrite IH. destruct (existsb (Hex.eqb x) l).
  - now rewrite orb_true_r.
  - rewrite orb_false_r, filter_app. simpl.
    destruct (Hex.eqb x y); simpl; [now rewrite app_nil_r|reflexivity].
Qed.

Lemma first_seen_nil_inv (l : list Hex.t) : first_seen l = [] -> l = [].
Proof. destruct l; simpl; [reflexivity|discriminate]. Qed.

(** ** Searching a list from both ends *)

Section Find.
Context {A : Type} (f : A -> bool).

Lemma find_snoc (l : list A) (x : A) :
  find f (l ++ [x]) =
  match find f l with
  | Some y => Some y
  | None => if f x then Some x else None
  end.
Proof.
  induction l as [|y l IH]; simpl; [reflexivity|].
  destruct (f y); auto.
Qed.

Lemma find_none_iff (l : list A) :
  find f l = None <-> forall x, In x l -> f x = false.
Proof.
  split; [apply find_none|].
  induction l as [|y l IH]; simpl; [reflexivity|]; intros H.
  rewrite (H y) by now left. apply IH. intros x I; apply H; now right.
Qed.

Lemma find_rev_none (l : list A) :
  find f l = None <-> find f (rev l) = None.
Proof.
  rewrite !find_none_iff. split; intros H x I; apply H;
    [apply in_rev|apply -> in_rev]; assumption.
Qed.

Lemma find_filter_same (l : list A) : find f (filter f l) = find f l.
Proof.
  induction l as [|y l IH]; simpl; [reflexivity|].
  destruct (f y) eqn:E; simpl; [now rewrite E|assumption].
Qed.

Lemma filter_rev (l : list A) : filter f (rev l) = rev (filter f l).
Proof.
  induction l as [|y l IH]; simpl; [reflexivity|].
  rewrite filter_app, IH. simpl.
  destruct (f y); simpl; [reflexivity|now rewrite app_nil_r].
Qed.

End Find.

(** ** The accumulator after a run of raw diffs *)

Lemma net_of_snoc (raws : list Raw.t) (r : Raw.t) :
  net_of (raws ++ [r]) = upsert (net_of raws) r.
Proof. unfold net_of. now rewrite fold_left_app. Qed.

Lemma slots_of_upsert (net : NetStateDiff) (r : Raw.t) (a : Address) :
  slots_of (upsert net r) a =
  if Hex.eqb (Raw.address r) a
  then JSObject.set (slots_of net a) (Raw.key r) (merged (slots_of net a) r)
  else slots_of net a.
Proof.
  unfold upsert at 1. unfold slots_of at 1.
  destruct (Hex_eqb_spec (Raw.address r) a) as [<-|N].
  - now rewrite get_set_same.
  - now rewrite get_set_other.
Qed.

Lemma keys_at_snoc (a : Address) (raws : list Raw.t) (r : Raw.t) :
  keys_at a (raws ++ [r]) =
  keys_at a raws ++ (if Hex.eqb (Raw.address r) a then [Raw.key r] else []).
Proof.
  unfold keys_at. rewrite filter_app, map_app. simpl.
  now destruct (Hex.eqb (Raw.address r) a).
Qed.

Lemma net_of_keys (raws : list Raw.t) :
  JSObject.keys (net_of raws) = first_seen (addresses raws).
Proof.
  induction raws as [|r raws IH] using rev_ind; [reflexivity|].
  rewrite net_of_snoc. unfold upsert. rewrite keys_set.
  unfold addresses in *. rewrite map_app. simpl. rewrite first_seen_snoc.
  destruct (JSObject.get (net_of raws) (Raw.address r)) as [s|] eqn:G.
  - assert (I : In (Raw.address r) (map Raw.address raws)).
    { apply first_seen_in. rewrite <- IH.
      destruct (in_dec Hex_eq_dec (Raw.address r) (JSObject.keys (net_of raws)))
        as [I|NI]; [assumption|].
      apply get_none_iff in NI. congruence. }
    apply existsb_hex in I. now rewrite I.
  - apply get_none_iff in G. rewrite IH, first_seen_in in G.
    destruct (existsb (Hex.eqb (Raw.address r)) (map Raw.address raws)) eqn:X.
    + apply existsb_hex in X. contradiction.
    + now rewrite IH.
Qed.

Lemma net_of_slot_keys (raws : list Raw.t) (a : Address) :
  JSObject.keys (slots_of (net_of raws) a) = first_seen (keys_at a raws).
Proof.
  induction raws as [|r raws IH] using rev_ind; [reflexivity|].
  rewrite net_of_snoc, slots_of_upsert, keys_at_snoc.
  destruct (Hex.eqb (Raw.address r) a).
  - rewrite keys_set, first_seen_snoc.
    destruct (JSObject.get (slots_of (net_of raws) a) (Raw.key r))
      as [v|] eqn:G.
    + assert (I : In (Raw.key r) (keys_at a raws)).
      { apply first_seen_in. rewrite <- IH.
        destruct (in_dec Hex_eq_dec (Raw.key r)
                    (JSObject.keys (slots_of (net_of raws) a)))
          as [I|NI]; [assumption|].
        apply get_none_iff in NI. congruence. }
      apply existsb_hex in I. now rewrite I.
    + apply get_none_iff in G. rewrite IH, first_seen_in in G.
      destruct (existsb (Hex.eqb (Raw.key r)) (keys_at a raws)) eqn:X.
      * apply existsb_hex in X. contradiction.
      * now rewrite IH.
  - now rewrite app_nil_r.
Qed.

Lemma values_on_snoc (a : Address) (k : Slot) (raws : list Raw.t) (r : Raw.t) :
  values_on a k (raws ++ [r]) =
  if on_pair a k r
  then match values_on a k raws with
       | Some v =>
           Some (StorageValues.mk (StorageValues.original v) (Raw.dirty r))
       | None => Some (StorageValues.mk (Raw.original r) (Raw.dirty r))
       end
  else values_on a k raws.
Proof.
  unfold values_on, first_on, last_on.
  rewrite find_snoc, rev_unit. simpl.
  destruct (find (on_pair a k) raws) as [f|] eqn:F.
  - destruct (find (on_pair a k) (rev raws)) as [l|] eqn:L.
    + now destruct (on_pair a k r).
    + apply find_rev_none in L. congruence.
  - now destruct (on_pair a k r).
Qed.

Lemma net_of_values (raws : list Raw.t) (a : Address) (k : Slot) :
  JSObject.get (slots_of (net_of raws) a) k = values_on a k raws.
Proof.
  induction raws as [|r raws IH] using rev_ind; [reflexivity|].
  rewrite net_of_snoc, slots_of_upsert, values_on_snoc. unfold on_pair.
  destruct (Hex_eqb_spec (Raw.address r) a) as [<-|NA]; simpl; [|assumption].
  destruct (Hex_eqb_spec (Raw.key r) k) as [<-|NK].
  - rewrite get_set_same. unfold merged. rewrite IH.
    now destruct (values_on (Raw.address r) (Raw.key r) raws).
  - now rewrite get_set_other.
Qed.

(** ** The output as a function of the raw diffs *)

Section FlatMap.
Context {A B C : Type}.

Lemma flat_map_flat_map (f : A -> list B) (g : B -> list C) (l : list A) :
  flat_map g (flat_map f l) = flat_map (fun x => flat_map g (f x)) l.
Proof.
  induction l as [|x l IH]; simpl; [reflexivity|].
  now rewrite flat_map_app, IH.
Qed.

Lemma flat_map_map (h : A -> B) (g : B -> list C) (l : list A) :
  flat_map g (map h l) = flat_map (fun x => g (h x)) l.
Proof. induction l as [|x l IH]; simpl; [reflexivity|now rewrite IH]. Qed.

Lemma flat_map_ext_in (f g : A -> list B) (l : list A) :
  (forall x, In x l -> f x = g x) -> flat_map f l = flat_map g l.
Proof.
  induction l as [|x l IH]; simpl; intros H; [reflexivity|].
  rewrite (H x) by now left. f_equal. apply IH. intros y I; apply H; now right.
Qed.

Lemma map_flat_map (h : B -> C) (f : A -> list B) (l : list A) :
  map h (flat_map f l) = flat_map (fun x => map h (f x)) l.
Proof.
  induction l as [|x l IH]; simpl; [reflexivity|].
  now rewrite map_app, IH.
Qed.

Lemma filter_flat_map (p : B -> bool) (f : A -> list B) (l : list A) :
  filter p (flat_map f l) = flat_map (fun x => filter p (f x)) l.
Proof.
  induction l as [|x l IH]; simpl; [reflexivity|].
  now rewrite filter_app, IH.
Qed.

End FlatMap.

Lemma flat_map_unit {A : Type} (l : list A) : flat_map (fun x => [x]) l = l.
Proof. induction l as [|x l IH]; simpl; [reflexivity|now rewrite IH]. Qed.

(** Enumerating an object with distinct names is enumerating its names and
    reading each. *)
Lemma table_flat_map {V B : Type} (o : JSObject.t V)
  (g : Hex.t -> V -> list B) :
  NoDup (JSObject.keys o) ->
  flat_map (fun p => g (fst p) (snd p)) o =
  flat_map (fun k => match JSObject.get o k with
                     | Some v => g k v
                     | None => []
                     end) (JSObject.keys o).
Proof.
  intros ND.
  assert (H : forall l, incl l o ->
            flat_map (fun p => g (fst p) (snd p)) l =
            flat_map (fun k => match JSObject.get o k with
                               | Some v => g k v
                               | None => []
                               end) (JSObject.keys l)).
  { induction l as [|[k v] l IH]; intros I; simpl; [reflexivity|].
    rewrite (in_get_some o k v ND) by (apply I; now left).
    f_equal. apply IH. intros x Hx; apply I; now right. }
  apply H, incl_refl.
Qed.

Lemma to_records_grouped (net : NetStateDiff) :
  to_records net =
  flat_map (fun p => address_records (fst p) (snd p)) net.
Proof.
  unfold to_records. rewrite entries_creation_order.
  apply flat_map_ext. intros [a s]. rewrite entries_creation_order.
  cbn [fst snd]. unfold address_records.
  induction s as [|[k v] s IH]; simpl; [reflexivity|].
  now rewrite IH.
Qed.

Lemma to_records_net_of (raws : list Raw.t) :
  to_records (net_of raws) =
  flat_map (net_record raws) (expected_order raws).
Proof.
  rewrite to_records_grouped.
  etransitivity.
  { apply (table_flat_map (net_of raws) address_records).
    rewrite net_of_keys; apply first_seen_NoDup. }
  rewrite net_of_keys. unfold expected_order.
  rewrite flat_map_flat_map. apply flat_map_ext. intros a.
  rewrite flat_map_map.
  transitivity (address_records a (slots_of (net_of raws) a)).
  { unfold slots_of. now destruct (JSObject.get (net_of raws) a). }
  unfold address_records.
  etransitivity.
  { apply (table_flat_map (slots_of (net_of raws) a) (slot_record a)).
    rewrite net_of_slot_keys; apply first_seen_NoDup. }
  rewrite net_of_slot_keys. apply flat_map_ext. intros k.
  rewrite net_of_values. unfold net_record. reflexivity.
Qed.

(** The merge, in closed form, on inputs that meet the raw-count contract. *)
Lemma computeNetStateDiff_closed_form (stateDiffs : list StateDiff.t) :
  Forall one_raw stateDiffs ->
  computeNetStateDiff stateDiffs =
  Ok (flat_map (net_record (raws_of stateDiffs))
        (expected_order (raws_of stateDiffs))).
Proof.
  intros F. unfold computeNetStateDiff.
  rewrite accumulate_fold by assumption. simpl.
  f_equal. apply to_records_net_of.
Qed.

Lemma one_raw_dec (stateDiffs : list StateDiff.t) :
  {Forall one_raw stateDiffs} + {Exists (fun sd => ~ one_raw sd) stateDiffs}.
Proof.
  apply Forall_Exists_dec. intros sd. unfold one_raw. apply Nat.eq_dec.
Qed.

Lemma computeNetStateDiff_ok_inv (stateDiffs out : list StateDiff.t) :
  computeNetStateDiff stateDiffs = Ok out -> Forall one_raw stateDiffs.
Proof.
  intros H. destruct (one_raw_dec stateDiffs) as [F|E]; [assumption|].
  destruct (accumulate_throw stateDiffs JSObject.empty E) as (sd & _ & _ & T).
  unfold computeNetStateDiff in H. rewrite T in H. discriminate.
Qed.

(** ** Which pairs are emitted, and with what *)

Lemma on_pair_iff (a : Address) (k : Slot) (r : Raw.t) :
  on_pair a k r = true <-> pair_of r = (a, k).
Proof.
  unfold on_pair, pair_of.
  rewrite andb_true_iff, !Hex_eqb_eq. split; [intros [-> ->]|intros [= -> ->]];
    auto.
Qed.

Lemma keys_at_in (a : Address) (k : Slot) (raws : list Raw.t) :
  In k (keys_at a raws) <-> In (a, k) (map pair_of raws).
Proof.
  unfold keys_at. rewrite !in_map_iff. split.
  - intros (r & <- & I). apply filter_In in I as [I E].
    apply Hex_eqb_eq in E. subst a. now exists r.
  - intros (r & E & I). inversion E; subst. exists r. split; [reflexivity|].
    apply filter_In. split; [assumption|apply Hex_eqb_refl].
Qed.

Lemma expected_order_in (raws : list Raw.t) (p : Address * Slot) :
  In p (expected_order raws) <-> In p (map pair_of raws).
Proof.
  unfold expected_order. rewrite in_flat_map. destruct p as [a k]. split.
  - intros (a' & _ & I). apply in_map_iff in I as (k' & E & I).
    inversion E; subst. now apply keys_at_in, first_seen_in.
  - intros I. exists a. split.
    + apply first_seen_in. unfold addresses.
      apply in_map_iff in I as (r & E & I). inversion E; subst.
      now apply in_map.
    + apply in_map. now apply first_seen_in, keys_at_in.
Qed.

Lemma NoDup_map_pair (a : Address) (l : list Slot) :
  NoDup l -> NoDup (map (fun k => (a, k)) l).
Proof.
  induction 1 as [|k l NI ND IH]; simpl; constructor; [|assumption].
  intros I. apply in_map_iff in I as (k' & E & I). inversion E; subst.
  contradiction.
Qed.

Lemma expected_order_NoDup (raws : list Raw.t) : NoDup (expected_order raws).
Proof.
  unfold expected_order.
  generalize (first_seen_NoDup (addresses raws)).
  induction (first_seen (addresses raws)) as [|a l IH]; intros ND; simpl.
  - constructor.
  - inversion ND as [|? ? NI ND']; subst. apply NoDup_app.
    + apply NoDup_map_pair, first_seen_NoDup.
    + auto.
    + intros [a' k'] I1 I2. apply in_map_iff in I1 as (k0 & E & _).
      inversion E; subst. apply in_flat_map in I2 as (a0 & Ia & I2).
      apply in_map_iff in I2 as (k1 & E' & _). inversion E'; subst.
      contradiction.
Qed.

Lemma values_on_some (a : Address) (k : Slot) (raws : list Raw.t) :
  In (a, k) (map pair_of raws) ->
  exists f l,
    first_on a k raws = Some f /\ last_on a k raws = Some l /\
    values_on a k raws =
    Some (StorageValues.mk (Raw.original f) (Raw.dirty l)).
Proof.
  intros I. apply in_map_iff in I as (r & E & I).
  apply on_pair_iff in E. unfold values_on.
  destruct (first_on a k raws) as [f|] eqn:F.
  - destruct (last_on a k raws) as [l|] eqn:L; [now exists f, l|].
    unfold first_on, last_on in *. apply find_rev_none in L. congruence.
  - unfold first_on in F. rewrite find_none_iff in F.
    rewrite (F r I) in E. discriminate.
Qed.

Lemma values_on_none (a : Address) (k : Slot) (raws : list Raw.t) :
  ~ In (a, k) (map pair_of raws) -> values_on a k raws = None.
Proof.
  intros NI. unfold values_on.
  destruct (first_on a k raws) as [f|] eqn:F; [|reflexivity].
  exfalso. apply NI. apply find_some in F as [I E].
  apply on_pair_iff in E. rewrite <- E. now apply in_map.
Qed.

Lemma touches_record (a k a' k' o d : Hex.t) :
  touches a k (record a' k' o d) = Hex.eqb a' a && Hex.eqb k' k.
Proof. unfold touches, record, on_pair. simpl. now rewrite orb_false_r. Qed.

Lemma filter_net_record (raws : list Raw.t) (a : Address) (k : Slot)
  (p : Address * Slot) :
  filter (touches a k) (net_record raws p) =
  if Hex.eqb (fst p) a && Hex.eqb (snd p) k then net_record raws p else [].
Proof.
  unfold net_record. destruct (values_on (fst p) (snd p) raws).
  - simpl. rewrite touches_record.
    now destruct (Hex.eqb (fst p) a && Hex.eqb (snd p) k).
  - now destruct (Hex.eqb (fst p) a && Hex.eqb (snd p) k).
Qed.

Lemma pair_eq_dec (p q : Address * Slot) : {p = q} + {p <> q}.
Proof.
  destruct p as [a k], q as [a' k'].
  destruct (Hex_eq_dec a a') as [->|N]; [|right; congruence].
  destruct (Hex_eq_dec k k') as [->|N]; [left|right]; congruence.
Qed.

Lemma flat_map_pick {B : Type} (g : Address * Slot -> list B)
  (a : Address) (k : Slot) (l : list (Address * Slot)) :
  NoDup l ->
  flat_map (fun p => if Hex.eqb (fst p) a && Hex.eqb (snd p) k
                     then g p else []) l =
  if in_dec pair_eq_dec (a, k) l then g (a, k) else [].
Proof.
  induction l as [|[a' k'] l IH]; intros ND; simpl; [reflexivity|].
  inversion ND as [|? ? NI ND']; subst. rewrite (IH ND').
  destruct (pair_eq_dec (a', k') (a, k)) as [E|N].
  - inversion E; subst. rewrite !Hex_eqb_refl. simpl.
    destruct (in_dec pair_eq_dec (a, k) l); [contradiction|].
    apply app_nil_r.
  - assert (X : Hex.eqb a' a && Hex.eqb k' k = false).
    { apply andb_false_iff.
      destruct (Hex_eqb_spec a' a); [|now left].
      destruct (Hex_eqb_spec k' k); [|now right]. subst; congruence. }
    rewrite X. simpl.
    destruct (in_dec pair_eq_dec (a, k) l); reflexivity.
Qed.

Lemma emitted_for_closed_form (raws : list Raw.t) (a : Address) (k : Slot) :
  emitted_for a k (flat_map (net_record raws) (expected_order raws)) =
  net_record raws (a, k).
Proof.
  unfold emitted_for. rewrite filter_flat_map.
  rewrite (flat_map_ext _ _ (filter_net_record raws a k)).
  rewrite flat_map_pick by apply expected_order_NoDup.
  destruct (in_dec pair_eq_dec (a, k) (expected_order raws)) as [I|NI];
    [reflexivity|].
  rewrite expected_order_in in NI. unfold net_record. simpl.
  now rewrite values_on_none.
Qed.

Lemma pairs_of_closed_form (raws : list Raw.t) :
  pairs_of (flat_map (net_record raws) (expected_order raws)) =
  expected_order raws.
Proof.
  unfold pairs_of, raws_of. rewrite flat_map_flat_map, map_flat_map.
  rewrite <- (flat_map_unit (expected_order raws)) at 2.
  apply flat_map_ext_in. intros [a k] I.
  apply expected_order_in, values_on_some in I as (f & l & _ & _ & E).
  unfold net_record. simpl. now rewrite E.
Qed.

(** ** Restricting the input to one pair *)

Lemma NoDup_all_equal {A : Type} (x : A) (l : list A) :
  NoDup l -> In x l -> (forall y, In y l -> y = x) -> l = [x].
Proof.
  intros ND I H. destruct l as [|y l]; [contradiction|].
  assert (y = x) by (apply H; now left). subst y.
  destruct l as [|z l]; [reflexivity|].
  assert (z = x) by (apply H; right; now left). subst z.
  inversion ND as [|? ? NI _]. exfalso; apply NI; now left.
Qed.

Lemma raws_of_filter_touches (a : Address) (k : Slot)
  (stateDiffs : list StateDiff.t) :
  Forall one_raw stateDiffs ->
  raws_of (filter (touches a k) stateDiffs) =
  filter (on_pair a k) (raws_of stateDiffs).
Proof.
  induction 1 as [|sd sds H F IH]; simpl; [reflexivity|].
  unfold raws_of in *. simpl. rewrite filter_app, <- IH.
  unfold one_raw in H. unfold touches at 1.
  destruct (StateDiff.raw sd) as [|r [|r' rs]] eqn:R; try discriminate.
  simpl. rewrite orb_false_r.
  destruct (on_pair a k r); simpl; [now rewrite R|reflexivity].
Qed.

Lemma values_on_filter (a : Address) (k : Slot) (raws : list Raw.t) :
  values_on a k (filter (on_pair a k) raws) = values_on a k raws.
Proof.
  unfold values_on, first_on, last_on.
  now rewrite <- filter_rev, !find_filter_same.
Qed.

Lemma expected_order_one_pair (a : Address) (k : Slot) (raws : list Raw.t) :
  (forall r, In r raws -> pair_of r = (a, k)) ->
  expected_order raws = match raws with [] => [] | _ :: _ => [(a, k)] end.
Proof.
  intros H. destruct raws as [|r raws]; [reflexivity|].
  apply NoDup_all_equal.
  - apply expected_order_NoDup.
  - apply expected_order_in. rewrite <- (H r) by now left.
    apply in_map. now left.
  - intros p I. apply expected_order_in, in_map_iff in I as (r' & <- & I).
    now apply H.
Qed.

Lemma computeNetStateDiff_one_pair (a : Address) (k : Slot)
  (stateDiffs : list StateDiff.t) :
  Forall one_raw stateDiffs ->
  computeNetStateDiff (filter (touches a k) stateDiffs) =
  Ok (net_record (raws_of stateDiffs) (a, k)).
Proof.
  intros F. rewrite computeNetStateDiff_closed_form.
  2:{ rewrite Forall_forall in *. intros sd I.
      apply filter_In in I as [I _]. auto. }
  f_equal. rewrite raws_of_filter_touches by assumption.
  set (raws := raws_of stateDiffs).
  rewrite (expected_order_one_pair a k).
  2:{ intros r I. apply filter_In in I as [_ E]. now apply on_pair_iff. }
  unfold net_record at 2. simpl. rewrite <- values_on_filter.
  destruct (filter (on_pair a k) raws) as [|r l] eqn:E; simpl.
  - reflexivity.
  - unfold net_record. simpl. now rewrite app_nil_r.
Qed.

(** ** Properties of the merge *)

(** C1.  For every input and every (address, key) pair occurring in it, the
    one record emitted for that pair carries the [original] of the first raw
    diff on the pair and the [dirty] of the last one, in input order,
    whatever the values in between. *)
Theorem first_original_last_dirty
  (stateDiffs out : list StateDiff.t) (a : Address) (k : Slot) :
  computeNetStateDiff stateDiffs = Ok out ->
  In (a, k) (pairs_of stateDiffs) ->
  exists first last,
    first_on a k (raws_of stateDiffs) = Some first /\
    last_on a k (raws_of stateDiffs) = Some last /\
    emitted_for a k out =
    [record a k (Raw.original first) (Raw.dirty last)].
Proof.
  intros H I.
  pose proof (computeNetStateDiff_ok_inv _ _ H) as F.
  rewrite computeNetStateDiff_closed_form in H by assumption.
  inversion H; subst out; clear H.
  destruct (values_on_some a k (raws_of stateDiffs) I)
    as (f & l & Hf & Hl & V).
  exists f, l. repeat split; try assumption.
  rewrite emitted_for_closed_form. unfold net_record. simpl.
  now rewrite V.
Qed.

(** C2.  The output lists the pairs in first-seen order grouped by address:
    address groups in the order each address was first encountered, keys
    within a group in the order each was first encountered there; and the
    output is a function of the input. *)
Theorem output_in_first_seen_order (stateDiffs out : list StateDiff.t) :
  computeNetStateDiff stateDiffs = Ok out ->
  pairs_of out = expected_order (raws_of stateDiffs) /\
  (forall out', computeNetStateDiff stateDiffs = Ok out' -> out' = out).
Proof.
  intros H. split.
  - pose proof (computeNetStateDiff_ok_inv _ _ H) as F.
    rewrite computeNetStateDiff_closed_form in H by assumption.
    inversion H; subst out. apply pairs_of_closed_form.
  - intros out' H'. congruence.
Qed.

(** C3.  The output holds exactly one record per distinct pair touched in
    the input; the record of a pair is what the merge yields on the diffs of
    that pair alone, so other pairs have no influence on it; and a slot
    written [A] to [B] and then back to [A] is still reported, as [(A, A)]. *)
Theorem one_record_per_touched_pair :
  (forall stateDiffs out,
      computeNetStateDiff stateDiffs = Ok out ->
      Forall one_raw out /\
      NoDup (pairs_of out) /\
      (forall p, In p (pairs_of out) <-> In p (pairs_of stateDiffs)) /\
      (forall a k,
          computeNetStateDiff (filter (touches a k) stateDiffs) =
          Ok (emitted_for a k out))) /\
  (forall a k A B,
      computeNetStateDiff [record a k A B; record a k B A] =
      Ok [record a k A A]).
Proof.
  split.
  - intros stateDiffs out H.
    pose proof (computeNetStateDiff_ok_inv _ _ H) as F.
    rewrite computeNetStateDiff_closed_form in H by assumption.
    inversion H; subst out; clear H.
    repeat split.
    + apply Forall_forall. intros sd I.
      apply in_flat_map in I as (p & _ & I). unfold net_record in I.
      destruct (values_on (fst p) (snd p) (raws_of stateDiffs));
        [|contradiction].
      destruct I as [<-|[]]. reflexivity.
    + rewrite pairs_of_closed_form. apply expected_order_NoDup.
    + rewrite pairs_of_closed_form. apply expected_order_in.
    + rewrite pairs_of_closed_form. apply expected_order_in.
    + intros a k. rewrite emitted_for_closed_form.
      now apply computeNetStateDiff_one_pair.
  - intros a k A B.
    rewrite computeNetStateDiff_closed_form by (repeat constructor).
    unfold expected_order, net_record, values_on, first_on, last_on,
      keys_at, addresses, on_pair, record, raws_of.
    simpl. repeat (rewrite Hex_eqb_refl; simpl). reflexivity.
Qed.

(** C8.  Every record of the output has the shape of an input entry: an
    address, a one-element raw list whose element bears that same address,
    and the three decoded fields set to null. *)
Theorem output_records_have_input_shape (stateDiffs out : list StateDiff.t) :
  computeNetStateDiff stateDiffs = Ok out ->
  Forall
    (fun r =>
       exists a k o d,
         r = StateDiff.mk a [Raw.mk a k o d] None None None)
    out.
Proof.
  unfold computeNetStateDiff.
  destruct (accumulate JSObject.empty stateDiffs) as [net|e]; simpl;
    [|discriminate].
  intros [= <-]. rewrite to_records_grouped. apply Forall_forall.
  intros r I. apply in_flat_map in I as ([a s] & _ & I).
  unfold address_records in I. apply in_flat_map in I as ([k v] & _ & I).
  destruct I as [<-|[]]. simpl.
  now exists a, k, (StorageValues.original v), (StorageValues.dirty v).
Qed.

(** C4.  The merge throws exactly when some entry of its input has a raw
    list whose length is not 1; the error is the script's own, raised for
    such an entry, and a call that throws returns no list. *)
Theorem throws_iff_bad_raw_count (stateDiffs : list StateDiff.t) :
  (throws (computeNetStateDiff stateDiffs) <->
   Exists (fun sd => length (StateDiff.raw sd) <> 1%nat) stateDiffs) /\
  (forall e,
      computeNetStateDiff stateDiffs = Throw e ->
      exists sd,
        In sd stateDiffs /\ length (StateDiff.raw sd) <> 1%nat /\
        e = UnexpectedRawCount sd) /\
  (throws (computeNetStateDiff stateDiffs) ->
   forall out, computeNetStateDiff stateDiffs <> Ok out).
Proof.
  assert (T : forall e,
             computeNetStateDiff stateDiffs = Throw e ->
             exists sd,
               In sd stateDiffs /\ length (StateDiff.raw sd) <> 1%nat /\
               e = UnexpectedRawCount sd).
  { intros e H. destruct (one_raw_dec stateDiffs) as [F|E].
    - rewrite computeNetStateDiff_closed_form in H by assumption.
      discriminate.
    - destruct (accumulate_throw stateDiffs JSObject.empty E)
        as (sd & I & B & A).
      exists sd. repeat split; try assumption.
      unfold computeNetStateDiff in H. rewrite A in H. simpl in H.
      congruence. }
  repeat split.
  - intros [e H]. destruct (T e H) as (sd & I & B & _).
    apply Exists_exists. now exists sd.
  - intros E. destruct (accumulate_throw stateDiffs JSObject.empty E)
      as (sd & _ & _ & A).
    exists (UnexpectedRawCount sd). unfold computeNetStateDiff.
    now rewrite A.
  - exact T.
  - intros [e H] out. rewrite H. discriminate.
Qed.

(** C10.  When every entry has exactly one raw diff the merge does not
    throw: it returns a list, and on the empty input the empty list. *)
Theorem total_on_well_formed_input :
  (forall stateDiffs,
      Forall (fun sd => length (StateDiff.raw sd) = 1%nat) stateDiffs ->
      exists out, computeNetStateDiff stateDiffs = Ok out) /\
  computeNetStateDiff [] = Ok [].
Proof.
  split.
  - intros stateDiffs F. eexists.
    now apply computeNetStateDiff_closed_form.
  - reflexivity.
Qed.

(** ** Merging an output again *)

Lemma to_records_one_raw (net : NetStateDiff) :
  Forall one_raw (to_records net).
Proof.
  rewrite to_records_grouped. apply Forall_forall. intros r I.
  apply in_flat_map in I as (p & _ & I). unfold address_records in I.
  apply in_flat_map in I as (q & _ & I). destruct I as [<-|[]].
  reflexivity.
Qed.

Lemma raws_of_to_records (net : NetStateDiff) :
  raws_of (to_records net) =
  flat_map (fun p => map (raw_at (fst p)) (snd p)) net.
Proof.
  rewrite to_records_grouped. unfold raws_of. rewrite flat_map_flat_map.
  apply flat_map_ext. intros [a s]. simpl. unfold address_records.
  induction s as [|q s IH]; simpl; [reflexivity|]. now rewrite IH.
Qed.

Lemma net_of_normal (raws : list Raw.t) : normal (net_of raws).
Proof.
  split.
  - rewrite net_of_keys. apply first_seen_NoDup.
  - apply Forall_forall. intros [a s] I. simpl.
    assert (G : JSObject.get (net_of raws) a = Some s).
    { apply in_get_some; [|assumption].
      rewrite net_of_keys. apply first_seen_NoDup. }
    assert (S : slots_of (net_of raws) a = s) by (unfold slots_of; now rewrite G).
    pose proof (net_of_slot_keys raws a) as K. rewrite S in K.
    split.
    + intros ->. simpl in K. symmetry in K.
      apply first_seen_nil_inv in K.
      assert (Ia : In a (addresses raws)).
      { apply first_seen_in. rewrite <- net_of_keys.
        change a with (fst (a, @nil (Hex.t * StorageValues.t))).
        now apply in_map. }
      unfold addresses in Ia. apply in_map_iff in Ia as (r & E & Ir).
      assert (Ik : In (Raw.key r) (keys_at a raws)).
      { apply keys_at_in. rewrite <- E.
        change (Raw.address r, Raw.key r) with (pair_of r). now apply in_map. }
      rewrite K in Ik. contradiction.
    + rewrite K. apply first_seen_NoDup.
Qed.

Lemma get_app_none {V : Type} (o o' : JSObject.t V) (k : Hex.t) :
  JSObject.get o k = None -> JSObject.get o' k = None ->
  JSObject.get (o ++ o') k = None.
Proof.
  rewrite !get_none_iff. unfold JSObject.keys. rewrite map_app, in_app_iff.
  tauto.
Qed.

Lemma fold_upsert_group (s2 : JSObject.t StorageValues.t) :
  forall (acc : NetStateDiff) (a : Address) (s1 : JSObject.t StorageValues.t),
    JSObject.get acc a = None ->
    (forall k, In k (JSObject.keys s2) -> JSObject.get s1 k = None) ->
    NoDup (JSObject.keys s2) ->
    fold_left upsert (map (raw_at a) s2) (acc ++ [(a, s1)]) =
    acc ++ [(a, s1 ++ s2)].
Proof.
  induction s2 as [|[k v] s2 IH]; intros acc a s1 G D ND; simpl.
  - now rewrite app_nil_r.
  - inversion ND as [|? ? NI ND']; subst.
    assert (Gk : JSObject.get s1 k = None) by (apply D; now left).
    assert (U : upsert (acc ++ [(a, s1)]) (raw_at a (k, v)) =
                acc ++ [(a, s1 ++ [(k, v)])]).
    { unfold upsert, slots_of, merged. simpl.
      rewrite get_app_last by assumption. rewrite Gk.
      rewrite set_app_last by assumption.
      rewrite set_absent by assumption. now destruct v. }
    rewrite U, IH; try assumption.
    + now rewrite <- app_assoc.
    + intros k' I. apply get_app_none; [apply D; now right|].
      simpl. destruct (Hex_eqb_spec k k') as [->|]; [contradiction|reflexivity].
Qed.

Lemma fold_upsert_net (net : NetStateDiff) :
  forall acc : NetStateDiff,
    (forall a, In a (JSObject.keys net) -> JSObject.get acc a = None) ->
    normal net ->
    fold_left upsert (flat_map (fun p => map (raw_at (fst p)) (snd p)) net)
      acc = acc ++ net.
Proof.
  induction net as [|[a s] net IH]; intros acc D [ND F]; simpl.
  - now rewrite app_nil_r.
  - inversion ND as [|? ? NI ND']; subst.
    inversion F as [|? ? [NE NDs] F']; subst. simpl in NE, NDs.
    assert (Ga : JSObject.get acc a = None) by (apply D; now left).
    rewrite fold_left_app.
    destruct s as [|[k v] s]; [congruence|].
    inversion NDs as [|? ? NIk NDs']; subst.
    assert (U : upsert acc (raw_at a (k, v)) = acc ++ [(a, [(k, v)])]).
    { unfold upsert, slots_of, merged. simpl. rewrite Ga. simpl.
      rewrite set_absent by assumption. now destruct v. }
    simpl. rewrite U.
    rewrite fold_upsert_group; try assumption.
    + rewrite IH.
      * now rewrite <- app_assoc.
      * intros a' I. apply get_app_none; [apply D; now right|].
        simpl. destruct (Hex_eqb_spec a a') as [->|]; [contradiction|reflexivity].
      * now split.
    + intros k' I. simpl.
      destruct (Hex_eqb_spec k k') as [->|]; [contradiction|reflexivity].
Qed.

Lemma net_of_to_records (net : NetStateDiff) :
  normal net -> net_of (raws_of (to_records net)) = net.
Proof.
  intros N. unfold net_of. rewrite raws_of_to_records.
  now rewrite fold_upsert_net.
Qed.

(** C7.  The merge is idempotent: applied to its own output it succeeds and
    returns that output again, same records in the same order. *)
Theorem computeNetStateDiff_idempotent (stateDiffs out : list StateDiff.t) :
  computeNetStateDiff stateDiffs = Ok out ->
  computeNetStateDiff out = Ok out.
Proof.
  intros H. pose proof (computeNetStateDiff_ok_inv _ _ H) as F.
  unfold computeNetStateDiff in H.
  rewrite accumulate_fold in H by assumption. simpl in H.
  injection H as <-.
  fold (net_of (raws_of stateDiffs)).
  unfold computeNetStateDiff.
  rewrite accumulate_fold by apply to_records_one_raw. simpl. f_equal.
  fold (net_of (raws_of (to_records (net_of (raws_of stateDiffs))))).
  now rewrite net_of_to_records by apply net_of_normal.
Qed.

(** ** The ordering check *)

Lemma nth_error_in_range {A : Type} (l : list A) (i : nat) :
  (i < length l)%nat -> exists x, nth_error l i = Some x.
Proof.
  intros H. destruct (nth_error l i) as [x|] eqn:E; [now exists x|].
  apply nth_error_None in E. lia.
Qed.

Lemma check_indices_ok (txData : list TxData.t) (indices : list nat) :
  (forall i, In i indices -> (1 <= i < length txData)%nat) ->
  check_indices txData indices = Ok tt <->
  (forall i prev cur,
      In i indices ->
      nth_error txData (i - 1) = Some prev ->
      nth_error txData i = Some cur ->
      (TxData.blockNumber prev <= TxData.blockNumber cur)%Z).
Proof.
  induction indices as [|i rest IH]; intros R; simpl.
  - split; [intros _ i prev cur []|reflexivity].
  - destruct (nth_error_in_range txData i) as [cur C];
      [apply R; now left|].
    destruct (nth_error_in_range txData (i - 1)) as [prev P];
      [assert (1 <= i < length txData)%nat by (apply R; now left); lia|].
    rewrite C, P.
    destruct (Z.ltb_spec (TxData.blockNumber cur) (TxData.blockNumber prev))
      as [L|L].
    + split; [discriminate|]. intros H.
      specialize (H i prev cur (or_introl eq_refl) P C). lia.
    + rewrite IH by (intros j I; apply R; now right). split.
      * intros H j prev' cur' [<-|I] P' C'; [|eauto].
        rewrite P in P'. rewrite C in C'.
        inversion P'; inversion C'; subst. assumption.
      * intros H j prev' cur' I. apply H. now right.
Qed.

Lemma check_indices_throw (txData : list TxData.t) (indices : list nat)
  (e : Error) :
  (forall i, In i indices -> (1 <= i < length txData)%nat) ->
  check_indices txData indices = Throw e ->
  exists i prev cur,
    In i indices /\
    nth_error txData (i - 1) = Some prev /\
    nth_error txData i = Some cur /\
    (TxData.blockNumber cur < TxData.blockNumber prev)%Z /\
    e = NotOrdered (TxData.blockNumber prev) (TxData.blockNumber cur).
Proof.
  induction indices as [|i rest IH]; intros R; simpl; [discriminate|].
  destruct (nth_error_in_range txData i) as [cur C];
    [apply R; now left|].
  destruct (nth_error_in_range txData (i - 1)) as [prev P];
    [assert (1 <= i < length txData)%nat by (apply R; now left); lia|].
  rewrite C, P.
  destruct (Z.ltb_spec (TxData.blockNumber cur) (TxData.blockNumber prev))
    as [L|L].
  - intros [= <-]. exists i, prev, cur. repeat split; auto using in_eq.
  - intros H. destruct IH as (j & prev' & cur' & I & H');
      [intros j I; apply R; now right|assumption|].
    exists j, prev', cur'. split; [now right|assumption].
Qed.

Lemma check_ordering_range (txData : list TxData.t) (i : nat) :
  In i (seq 1 (length txData - 1)) -> (1 <= i < length txData)%nat.
Proof. rewrite in_seq. lia. Qed.

Lemma check_ordering_ok (txData : list TxData.t) :
  check_ordering txData = Ok tt <-> in_block_order txData.
Proof.
  unfold check_ordering.
  rewrite check_indices_ok by apply check_ordering_range.
  unfold in_block_order. split.
  - intros H i prev cur P C. apply (H (S i)); try assumption.
    + apply in_seq.
      assert (S i < length txData)%nat
        by (apply nth_error_Some; congruence).
      lia.
    + simpl. now rewrite Nat.sub_0_r.
  - intros H i prev cur I P C. apply check_ordering_range in I.
    apply (H (i - 1)%nat); [assumption|].
    replace (S (i - 1)) with i by lia. assumption.
Qed.

Lemma check_ordering_throw (txData : list TxData.t) (e : Error) :
  check_ordering txData = Throw e ->
  exists i prev cur,
    nth_error txData i = Some prev /\
    nth_error txData (S i) = Some cur /\
    (TxData.blockNumber cur < TxData.blockNumber prev)%Z /\
    e = NotOrdered (TxData.blockNumber prev) (TxData.blockNumber cur).
Proof.
  intros H. apply check_indices_throw in H as (i & prev & cur & I & P & C & L & E);
    [|apply check_ordering_range].
  apply check_ordering_range in I.
  exists (i - 1)%nat, prev, cur. replace (S (i - 1)) with i by lia. auto.
Qed.

(** C5.  The ordering check fails exactly when some adjacent pair of results
    has a strictly smaller block number second; equal neighbours pass. *)
Theorem ordering_fails_iff_block_number_decreases (txData : list TxData.t) :
  (throws (check_ordering txData) <-> exists i, decreases_at txData i) /\
  (forall e,
      check_ordering txData = Throw e ->
      exists i prev cur,
        nth_error txData i = Some prev /\
        nth_error txData (S i) = Some cur /\
        (TxData.blockNumber cur < TxData.blockNumber prev)%Z /\
        e = NotOrdered (TxData.blockNumber prev) (TxData.blockNumber cur)) /\
  (in_block_order txData -> check_ordering txData = Ok tt).
Proof.
  split; [|split].
  - split.
    + intros [e H]. apply check_ordering_throw in H
        as (i & prev & cur & P & C & L & _).
      exists i, prev, cur. auto.
    + intros (i & prev & cur & P & C & L).
      destruct (check_ordering txData) as [[]|e] eqn:E; [|now exists e].
      apply check_ordering_ok in E. specialize (E i prev cur P C). lia.
  - apply check_ordering_throw.
  - apply check_ordering_ok.
Qed.

(** ** The pipeline: what is requested, and when the merge runs *)

Section MainFacts.

Variable tenderly : string -> result TxData.t.
Variable readFile : string -> result string.
Variable simulation : string -> result TxData.t.
Variable exists_ : string -> result bool.
Variable mkdir : string -> result unit.
Variable writeFile : string -> list StateDiff.t -> result unit.
Variable basename : string -> string.
Variable extname : string -> string.

Lemma getStateDiff_events (identifier : string) :
  exists ev r,
    getStateDiff tenderly simulation identifier = ([ev], r) /\
    request ev = true.
Proof.
  unfold getStateDiff. destruct (startsWith identifier "0x"); simpl;
    eexists; eexists; split; reflexivity.
Qed.

Lemma io_bind_ext {A B : Type} (m : IO A) (k k' : A -> IO B) :
  (forall a, k a = k' a) -> io_bind m k = io_bind m k'.
Proof.
  intros H. destruct m as [tr [a|e]]; simpl; [now rewrite H|reflexivity].
Qed.

Lemma resolve_each_events (identifiers : list string) :
  forall txData,
    Forall (fun e => request e = true)
      (fst (resolve_each tenderly simulation identifiers txData)).
Proof.
  induction identifiers as [|identifier rest IH]; intros txData; simpl.
  - constructor.
  - destruct (getStateDiff_events identifier) as (ev & r & -> & Q).
    destruct r as [sim|e]; simpl.
    + specialize (IH (txData ++ [sim])).
      destruct (resolve_each tenderly simulation rest (txData ++ [sim]))
        as [tr' r']. simpl in *. now constructor.
    + now constructor.
Qed.

Lemma split_space_head (line : string) :
  exists pieces,
    split space line = ListFile.before_space line :: pieces.
Proof.
  induction line as [|c line [pieces IH]]; simpl.
  - now exists [].
  - destruct (Ascii.eqb c space); [eexists; reflexivity|].
    rewrite IH. eexists; reflexivity.
Qed.

Lemma resolve_lines_each (lines : list string) :
  forall txData,
    resolve_lines tenderly simulation lines txData =
    resolve_each tenderly simulation
      (flat_map (fun line => if is_comment line then []
                             else [ListFile.before_space line]) lines)
      txData.
Proof.
  induction lines as [|line rest IH]; intros txData; simpl.
  - reflexivity.
  - destruct (is_comment line); simpl; [apply IH|].
    destruct (split_space_head line) as [pieces ->].
    apply io_bind_ext. intros sim. apply IH.
Qed.

Lemma lines_of_identifiers (fileContent : string) :
  flat_map (fun line => if is_comment line then []
                        else [ListFile.before_space line])
    (lines_of fileContent) =
  ListFile.identifiers fileContent.
Proof.
  unfold lines_of, ListFile.identifiers.
  induction (split newline fileContent) as [|line rest IH]; simpl;
    [reflexivity|].
  unfold truthy at 1.
  destruct (String.eqb line EmptyString); simpl; [assumption|].
  now rewrite IH.
Qed.

Lemma resolve_lines_events (fileContent : string) (txData : list TxData.t) :
  Forall (fun e => request e = true)
    (fst (resolve_lines tenderly simulation (lines_of fileContent) txData)).
Proof. rewrite resolve_lines_each. apply resolve_each_events. Qed.

(** The last block of [main], case by case: what is called, in which
    order, and whose outcome ends the run. *)
Lemma write_output_cases (filePath : string)
  (netStateDiff : list StateDiff.t) :
  write_output exists_ mkdir writeFile basename extname filePath
    netStateDiff =
  match exists_ outDir with
  | Throw e => ([FsExists outDir], Throw e)
  | Ok true =>
      ([FsExists outDir;
        WriteFile (outfile basename extname filePath) netStateDiff],
       writeFile (outfile basename extname filePath) netStateDiff)
  | Ok false =>
      match mkdir outDir with
      | Throw e => ([FsExists outDir; FsMkdir outDir], Throw e)
      | Ok _ =>
          ([FsExists outDir; FsMkdir outDir;
            WriteFile (outfile basename extname filePath) netStateDiff],
           writeFile (outfile basename extname filePath) netStateDiff)
      end
  end.
Proof.
  unfold write_output.
  destruct (exists_ outDir) as [[|]|e]; simpl; try reflexivity.
  destruct (mkdir outDir) as [[]|e]; reflexivity.
Qed.

(** Either the write is attempted, as the last call, and its outcome is the
    block's; or the block fails before it. *)
Lemma write_output_shape (filePath : string)
  (netStateDiff : list StateDiff.t) :
  (exists before,
      Forall (fun e => request e = false /\ is_merge e = false /\
                       is_write e = false) before /\
      write_output exists_ mkdir writeFile basename extname filePath
        netStateDiff =
      (before ++ [WriteFile (outfile basename extname filePath) netStateDiff],
       writeFile (outfile basename extname filePath) netStateDiff)) \/
  (exists before e,
      Forall (fun e => request e = false /\ is_merge e = false /\
                       is_write e = false) before /\
      write_output exists_ mkdir writeFile basename extname filePath
        netStateDiff = (before, Throw e)).
Proof.
  rewrite write_output_cases.
  destruct (exists_ outDir) as [[|]|e].
  - left. exists [FsExists outDir]. split; [|reflexivity].
    repeat constructor.
  - destruct (mkdir outDir) as [[]|e].
    + left. exists [FsExists outDir; FsMkdir outDir].
      split; [|reflexivity]. repeat constructor.
    + right. exists [FsExists outDir; FsMkdir outDir], e.
      split; [|reflexivity]. repeat constructor.
  - right. exists [FsExists outDir], e. split; [|reflexivity].
    repeat constructor.
Qed.

Lemma main_runs (filePath : string) :
  truthy filePath = true ->
  main_run tenderly readFile simulation exists_ mkdir writeFile
    basename extname filePath
    (main tenderly readFile simulation exists_ mkdir writeFile
       basename extname (Some filePath)).
Proof.
  intros T. unfold main. rewrite T. simpl.
  destruct (readFile filePath) as [fileContent|e] eqn:RF; simpl.
  2:{ now apply run_unreadable. }
  destruct (resolve_lines tenderly simulation (lines_of fileContent) [])
    as [tr [txData|e]] eqn:RL; simpl.
  2:{ eapply run_unresolved; eauto. }
  destruct (check_ordering txData) as [[]|e] eqn:CO; simpl.
  2:{ rewrite app_nil_r. eapply run_unordered; eauto. }
  destruct (computeNetStateDiff (flat_map TxData.stateDiff txData))
    as [netStateDiff|e] eqn:CN; simpl.
  - pose proof (run_merged tenderly readFile simulation exists_ mkdir
                  writeFile basename extname filePath fileContent tr txData
                  netStateDiff RF RL CO CN) as R.
    destruct (write_output exists_ mkdir writeFile basename extname
                filePath netStateDiff) as [tw rw].
    exact R.
  - eapply run_unmerged; eauto.
Qed.

End MainFacts.

(** C6.  The merge only ever runs on the flattened diffs of the very results
    the run resolved, and only when those are in non-decreasing block order;
    when they are not, the run fails in the ordering check, with no call of
    the merge in its trace.  With block numbers 5, 7, 6 the error is about
    7 and 6. *)
Theorem merge_only_after_ordering_check
  (tenderly : string -> result TxData.t)
  (readFile : string -> result string)
  (simulation : string -> result TxData.t)
  (exists_ : string -> result bool)
  (mkdir : string -> result unit)
  (writeFile : string -> list StateDiff.t -> result unit)
  (basename extname : string -> string) :
  (forall argv2 stateDiffs,
      In (Merge stateDiffs)
        (fst (main tenderly readFile simulation exists_ mkdir writeFile
                basename extname argv2)) ->
      exists filePath fileContent requests txData,
        argv2 = Some filePath /\
        readFile filePath = Ok fileContent /\
        resolve_lines tenderly simulation (lines_of fileContent) [] =
          (requests, Ok txData) /\
        in_block_order txData /\
        stateDiffs = flat_map TxData.stateDiff txData) /\
  (forall filePath fileContent requests txData,
      truthy filePath = true ->
      readFile filePath = Ok fileContent ->
      resolve_lines tenderly simulation (lines_of fileContent) [] =
        (requests, Ok txData) ->
      ~ in_block_order txData ->
      (exists block1 block2,
          main tenderly readFile simulation exists_ mkdir writeFile
            basename extname (Some filePath) =
          (ReadFile filePath :: requests,
           Throw (NotOrdered block1 block2))) /\
      Forall (fun e => is_merge e = false) (ReadFile filePath :: requests)) /\
  (forall filePath fileContent requests txData,
      truthy filePath = true ->
      readFile filePath = Ok fileContent ->
      resolve_lines tenderly simulation (lines_of fileContent) [] =
        (requests, Ok txData) ->
      map TxData.blockNumber txData = [5; 7; 6]%Z ->
      main tenderly readFile simulation exists_ mkdir writeFile
        basename extname (Some filePath) =
      (ReadFile filePath :: requests, Throw (NotOrdered 7 6))).
Proof.
  assert (Q : forall stateDiffs fileContent tr r,
             resolve_lines tenderly simulation (lines_of fileContent) [] =
               (tr, r) ->
             ~ In (Merge stateDiffs) tr).
  { intros stateDiffs fileContent tr r E J.
    pose proof (resolve_lines_events tenderly simulation fileContent [])
      as F.
    rewrite E in F. simpl in F. rewrite Forall_forall in F.
    specialize (F _ J). discriminate. }
  split; [|split].
  - intros [filePath|] stateDiffs; [|intros []].
    destruct (truthy filePath) eqn:T.
    2:{ unfold main. rewrite T. intros []. }
    pose proof (main_runs tenderly readFile simulation exists_ mkdir
                  writeFile basename extname filePath T) as R.
    remember (main tenderly readFile simulation exists_ mkdir writeFile
                basename extname (Some filePath)) as m eqn:M.
    clear M. intros I.
    destruct R as [e RF|fileContent tr e RF RL|fileContent tr txData e RF RL CO
                  |fileContent tr txData e RF RL CO CN
                  |fileContent tr txData net RF RL CO CN]; simpl in I.
    + destruct I as [I|[]]. discriminate I.
    + destruct I as [I|I]; [discriminate I|]. exfalso; exact (Q _ _ _ _ RL I).
    + destruct I as [I|I]; [discriminate I|]. exfalso; exact (Q _ _ _ _ RL I).
    + destruct I as [I|I]; [discriminate I|].
      apply in_app_iff in I as [I|[I|[]]]; [exfalso; exact (Q _ _ _ _ RL I)|].
      exists filePath, fileContent, tr, txData.
      repeat split; try assumption;
        [now apply check_ordering_ok|congruence].
    + destruct I as [I|I]; [discriminate I|].
      apply in_app_iff in I as [I|[I|I]]; [exfalso; exact (Q _ _ _ _ RL I)| |].
      * exists filePath, fileContent, tr, txData.
        repeat split; try assumption;
          [now apply check_ordering_ok|congruence].
      * exfalso.
        destruct (write_output_shape exists_ mkdir writeFile basename
                    extname filePath net)
          as [(before & F & E)|(before & e & F & E)];
          rewrite E in I; simpl in I; rewrite Forall_forall in F.
        -- apply in_app_iff in I as [I|[I|[]]]; [|discriminate I].
           destruct (F _ I) as (_ & N & _). discriminate N.
        -- destruct (F _ I) as (_ & N & _). discriminate N.
  - intros filePath fileContent requests txData T RF RL NO.
    destruct (check_ordering txData) as [[]|e] eqn:CO.
    { apply check_ordering_ok in CO. contradiction. }
    destruct (check_ordering_throw txData e CO)
      as (i & prev & cur & _ & _ & _ & ->).
    split.
    + exists (TxData.blockNumber prev), (TxData.blockNumber cur).
      unfold main. rewrite T. simpl. rewrite RF. simpl. rewrite RL. simpl.
      rewrite CO. simpl. now rewrite app_nil_r.
    + constructor; [reflexivity|].
      apply Forall_forall. intros e I.
      destruct (is_merge e) eqn:M; [|reflexivity].
      destruct e; try discriminate M. exfalso; exact (Q _ _ _ _ RL I).
  - intros filePath fileContent requests txData T RF RL B.
    unfold main. rewrite T. simpl. rewrite RF. simpl. rewrite RL. simpl.
    destruct txData as [|t1 [|t2 [|t3 [|t4 rest]]]]; try discriminate.
    simpl in B. injection B as B1 B2 B3.
    unfold check_ordering. simpl. rewrite B1, B2, B3. simpl.
    now rewrite app_nil_r.
Qed.

(** C9, as the script reads the list file.  Empty lines are dropped, lines
    beginning with [#] or [//] are skipped, and of every other line the text
    before its first space character is what is resolved; where the space is
    the only whitespace used and no line starts with one, that text is the
    first whitespace-delimited token and blank lines are the empty ones. *)
Theorem list_file_first_space_delimited
  (tenderly simulation : string -> result TxData.t)
  (fileContent : string) (txData : list TxData.t) :
  resolve_lines tenderly simulation (lines_of fileContent) txData =
    resolve_each tenderly simulation (ListFile.identifiers fileContent)
      txData /\
  (ListFile.plain fileContent = true ->
   ListFile.identifiers fileContent =
   ListFileSpec.identifiers fileContent).
Proof.
  split.
  - now rewrite resolve_lines_each, lines_of_identifiers.
  - unfold ListFile.plain, ListFile.identifiers, ListFileSpec.identifiers.
    intros P. rewrite forallb_forall in P.
    apply flat_map_ext_in. intros line I. specialize (P line I).
    unfold ListFile.plain_line in P. apply andb_true_iff in P as [O S].
    destruct line as [|c rest]; [reflexivity|].
    assert (W : ListFileSpec.is_whitespace c = false).
    { simpl in O. apply andb_true_iff in O as [O _].
      destruct (Ascii.eqb_spec c space) as [->|N].
      - unfold startsWith, space in S. simpl in S.
        destruct rest; discriminate S.
      - simpl in O. now apply negb_true_iff in O. }
    cbn [String.eqb ListFileSpec.is_blank]. rewrite W. cbn [andb].
    destruct (is_comment (String c rest)); [reflexivity|].
    f_equal. unfold ListFileSpec.first_token.
    cbn [ListFileSpec.skip_whitespace]. rewrite W.
    clear W S I. revert O. generalize (String c rest). clear c rest.
    induction s as [|c rest IH]; simpl; [reflexivity|].
    intros O. apply andb_true_iff in O as [O O'].
    destruct (Ascii.eqb_spec c space) as [->|N]; [reflexivity|].
    simpl in O. apply negb_true_iff in O. rewrite O. f_equal. auto.
Qed.

(** The header example: [key1] at [addr1] goes 00 to 01, later 01 to 06. *)
Lemma first_original_last_dirty_witness :
  computeNetStateDiff Example.transactions = Ok Example.net /\
  In (Example.addr1, Example.key1) (pairs_of Example.transactions) /\
  exists first last,
    first_on Example.addr1 Example.key1 (raws_of Example.transactions)
      = Some first /\
    last_on Example.addr1 Example.key1 (raws_of Example.transactions)
      = Some last /\
    emitted_for Example.addr1 Example.key1 Example.net =
    [record Example.addr1 Example.key1 (Raw.original first) (Raw.dirty last)].
Proof.
  split; [reflexivity|]. split; [simpl; auto|].
  apply (first_original_last_dirty Example.transactions Example.net);
    [reflexivity|simpl; auto].
Defined.

(** The header example comes out as [addr1.key1], [addr1.key2], [addr2.key3]. *)
Lemma output_in_first_seen_order_witness :
  computeNetStateDiff Example.transactions = Ok Example.net /\
  pairs_of Example.net = expected_order (raws_of Example.transactions).
Proof.
  split; [reflexivity|].
  apply (output_in_first_seen_order Example.transactions Example.net).
  reflexivity.
Defined.

(** The header example, restricted to [addr1.key1]. *)
Lemma one_record_per_touched_pair_witness :
  computeNetStateDiff Example.transactions = Ok Example.net /\
  NoDup (pairs_of Example.net) /\
  computeNetStateDiff
    (filter (touches Example.addr1 Example.key1) Example.transactions) =
  Ok (emitted_for Example.addr1 Example.key1 Example.net).
Proof.
  split; [reflexivity|].
  destruct (proj1 one_record_per_touched_pair Example.transactions Example.net
              eq_refl) as (_ & ND & _ & I).
  split; [exact ND|apply I].
Defined.

(** An entry with no raw diff after four good ones. *)
Lemma throws_iff_bad_raw_count_witness :
  Exists (fun sd => length (StateDiff.raw sd) <> 1%nat)
    (Example.transactions ++ [Example.no_raw]) /\
  throws (computeNetStateDiff (Example.transactions ++ [Example.no_raw])).
Proof.
  assert (E : Exists (fun sd => length (StateDiff.raw sd) <> 1%nat)
                (Example.transactions ++ [Example.no_raw])).
  { apply Exists_exists. exists Example.no_raw. split.
    - simpl; auto 10.
    - simpl. discriminate. }
  split; [exact E|].
  apply (proj1 (throws_iff_bad_raw_count
                  (Example.transactions ++ [Example.no_raw]))).
  exact E.
Defined.

(** The header example meets the raw-count contract. *)
Lemma total_on_well_formed_input_witness :
  Forall (fun sd => length (StateDiff.raw sd) = 1%nat) Example.transactions /\
  exists out, computeNetStateDiff Example.transactions = Ok out.
Proof.
  assert (F : Forall (fun sd => length (StateDiff.raw sd) = 1%nat)
                Example.transactions)
    by (repeat constructor).
  split; [exact F|].
  exact (proj1 total_on_well_formed_input Example.transactions F).
Defined.

(** The shape of the three records of the header example. *)
Lemma output_records_have_input_shape_witness :
  computeNetStateDiff Example.transactions = Ok Example.net /\
  Forall
    (fun r =>
       exists a k o d,
         r = StateDiff.mk a [Raw.mk a k o d] None None None)
    Example.net.
Proof.
  split; [reflexivity|].
  apply (output_records_have_input_shape Example.transactions Example.net).
  reflexivity.
Defined.

(** Merging the net diff of the header example once more. *)
Lemma computeNetStateDiff_idempotent_witness :
  computeNetStateDiff Example.transactions = Ok Example.net /\
  computeNetStateDiff Example.net = Ok Example.net.
Proof.
  split; [reflexivity|].
  apply (computeNetStateDiff_idempotent Example.transactions Example.net).
  reflexivity.
Defined.

(** Blocks 5, 7, 6: the pair at positions 1 and 2 decreases. *)
Lemma ordering_fails_iff_block_number_decreases_witness :
  decreases_at (Example.blocks [5; 7; 6]%Z) 1 /\
  throws (check_ordering (Example.blocks [5; 7; 6]%Z)).
Proof.
  assert (D : decreases_at (Example.blocks [5; 7; 6]%Z) 1).
  { exists (TxData.mk [] 7), (TxData.mk [] 6).
    repeat split; reflexivity. }
  split; [exact D|].
  apply (proj1 (ordering_fails_iff_block_number_decreases
                  (Example.blocks [5; 7; 6]%Z))).
  now exists 1%nat.
Defined.

(** A list file naming transactions of blocks 5, 7 and 6, and one naming
    transactions of blocks 5 and 7, on which the merge does run. *)
Lemma merge_only_after_ordering_check_witness :
  (truthy "unordered.txt" = true /\
   Example.readFile "unordered.txt" = Ok Example.out_of_order /\
   resolve_lines Example.tenderly Example.simulation
     (lines_of Example.out_of_order) [] =
     ([Fetch "0xaa"; Fetch "0xbb"; Fetch "0xcc"],
      Ok (Example.blocks [5; 7; 6]%Z)) /\
   main Example.tenderly Example.readFile Example.simulation
     Example.exists_ Example.mkdir Example.writeFile
     Example.basename Example.extname (Some "unordered.txt") =
     ([ReadFile "unordered.txt"; Fetch "0xaa"; Fetch "0xbb"; Fetch "0xcc"],
      Throw (NotOrdered 7 6))) /\
  (In (Merge [])
     (fst (main Example.tenderly Example.readFile Example.simulation
             Example.exists_ Example.mkdir Example.writeFile
             Example.basename Example.extname (Some "ordered.txt"))) /\
   exists filePath fileContent requests txData,
     Some "ordered.txt" = Some filePath /\
     Example.readFile filePath = Ok fileContent /\
     resolve_lines Example.tenderly Example.simulation
       (lines_of fileContent) [] = (requests, Ok txData) /\
     in_block_order txData /\
     [] = flat_map TxData.stateDiff txData).
Proof.
  split.
  - split; [reflexivity|]. split; [reflexivity|]. split; [reflexivity|].
    apply (proj2 (proj2 (merge_only_after_ordering_check Example.tenderly
                           Example.readFile Example.simulation
                           Example.exists_ Example.mkdir Example.writeFile
                           Example.basename Example.extname))
             "unordered.txt" Example.out_of_order
             [Fetch "0xaa"; Fetch "0xbb"; Fetch "0xcc"]
             (Example.blocks [5; 7; 6]%Z));
      reflexivity.
  - assert (I : In (Merge [])
                  (fst (main Example.tenderly Example.readFile
                          Example.simulation Example.exists_ Example.mkdir
                          Example.writeFile Example.basename Example.extname
                          (Some "ordered.txt"))))
      by (right; right; right; left; reflexivity).
    split; [exact I|].
    exact (proj1 (merge_only_after_ordering_check Example.tenderly
                    Example.readFile Example.simulation
                    Example.exists_ Example.mkdir Example.writeFile
                    Example.basename Example.extname)
             (Some "ordered.txt") [] I).
Defined.

(** A list file with a comment line, an empty line and a trailing comment. *)
Lemma list_file_first_space_delimited_witness :
  ListFile.plain Example.in_order = true /\
  ListFile.identifiers Example.in_order = ["0xaa"; "0xbb"] /\
  ListFile.identifiers Example.in_order =
  ListFileSpec.identifiers Example.in_order.
Proof.
  split; [reflexivity|]. split; [reflexivity|].
  apply (proj2 (list_file_first_space_delimited Example.tenderly
                  Example.simulation Example.in_order [])).
  reflexivity.
Defined.

(** C9, as stated, fails.  On a line whose comment is set off by a tab the
    whole line is resolved, not its first whitespace-delimited token; and a
    line holding a single space is not ignored: the empty text is resolved
    as a file path. *)
Lemma list_file_whitespace_counterexample :
  ListFileSpec.identifiers Example.tab_separated = ["0xaa"] /\
  fst (resolve_lines Example.tenderly Example.simulation
         (lines_of Example.tab_separated) []) =
    [Fetch Example.tab_separated] /\
  ListFileSpec.identifiers " " = [] /\
  fst (resolve_lines Example.tenderly Example.simulation (lines_of " ") []) =
    [ReadFile ""] /\
  ~ (forall fileContent,
        resolve_lines Example.tenderly Example.simulation
          (lines_of fileContent) [] =
        resolve_each Example.tenderly Example.simulation
          (ListFileSpec.identifiers fileContent) []).
Proof.
  repeat split; try reflexivity.
  intros H. specialize (H Example.tab_separated). discriminate H.
Qed.

(** * Further properties of the merge *)

Lemma raws_of_app (xs ys : list StateDiff.t) :
  raws_of (xs ++ ys) = raws_of xs ++ raws_of ys.
Proof. unfold raws_of. apply flat_map_app. Qed.

Lemma raws_of_map_raw (xs ys : list StateDiff.t) :
  map StateDiff.raw xs = map StateDiff.raw ys -> raws_of xs = raws_of ys.
Proof.
  intros E. unfold raws_of. rewrite !flat_map_concat_map. now rewrite E.
Qed.

Lemma one_raw_map_raw (xs ys : list StateDiff.t) :
  map StateDiff.raw xs = map StateDiff.raw ys ->
  Forall one_raw xs -> Forall one_raw ys.
Proof.
  revert ys. induction xs as [|x xs IH]; intros [|y ys] E F;
    try discriminate; constructor.
  - inversion E as [[Ex Et]]. inversion F; subst. unfold one_raw in *.
    congruence.
  - inversion E. inversion F; subst. now apply IH.
Qed.

Lemma accumulate_app (good rest : list StateDiff.t) (net : NetStateDiff) :
  Forall one_raw good ->
  accumulate net (good ++ rest) =
  accumulate (fold_left upsert (raws_of good) net) rest.
Proof.
  intros F. revert net. induction F as [|sd sds H F IH]; intros net; simpl.
  - reflexivity.
  - unfold one_raw in H. rewrite H. simpl.
    rewrite visit_raws_fold. simpl. rewrite IH.
    unfold raws_of. simpl. now rewrite fold_left_app.
Qed.

(** X1.  The merge reads nothing of an entry but its raw list: inputs with the
    same raw lists, entry by entry, give the same output, and the address of
    an output record is the raw diff's, not the entry's. *)
Theorem merge_reads_raw_lists_only :
  (forall xs ys out,
      map StateDiff.raw xs = map StateDiff.raw ys ->
      computeNetStateDiff xs = Ok out ->
      computeNetStateDiff ys = Ok out) /\
  (forall entry a k o d decoded1 decoded2 decoded3,
      computeNetStateDiff
        [StateDiff.mk entry [Raw.mk a k o d] decoded1 decoded2 decoded3] =
      Ok [record a k o d]).
Proof.
  split.
  - intros xs ys out E H.
    pose proof (computeNetStateDiff_ok_inv _ _ H) as F.
    rewrite computeNetStateDiff_closed_form in H by assumption.
    rewrite computeNetStateDiff_closed_form
      by (eapply one_raw_map_raw; eauto).
    now rewrite <- (raws_of_map_raw xs ys E).
  - intros entry a k o d d1 d2 d3.
    rewrite computeNetStateDiff_closed_form by (repeat constructor).
    unfold expected_order, net_record, values_on, first_on, last_on,
      keys_at, addresses, on_pair, record, raws_of.
    simpl. repeat (rewrite Hex_eqb_refl; simpl). reflexivity.
Qed.

(** X2.  Entries are checked in input order: the error names the first entry
    whose raw list does not hold exactly one diff, whatever follows it. *)
Theorem merge_reports_first_bad_entry
  (good : list StateDiff.t) (bad : StateDiff.t) (rest : list StateDiff.t) :
  Forall (fun sd => length (StateDiff.raw sd) = 1%nat) good ->
  length (StateDiff.raw bad) <> 1%nat ->
  computeNetStateDiff (good ++ bad :: rest) =
  Throw (UnexpectedRawCount bad).
Proof.
  intros F B. unfold computeNetStateDiff.
  rewrite accumulate_app by exact F. simpl.
  destruct (Nat.eqb_spec (length (StateDiff.raw bad)) 1) as [E|_];
    [contradiction|reflexivity].
Qed.

(** X4.  The output never has more records than the input has entries; it has
    one per distinct pair, and it is empty only for the empty input. *)
Theorem net_diff_size (stateDiffs out : list StateDiff.t) :
  computeNetStateDiff stateDiffs = Ok out ->
  length out = length (nodup pair_eq_dec (pairs_of stateDiffs)) /\
  (length out <= length stateDiffs)%nat /\
  (out = [] <-> stateDiffs = []).
Proof.
  intros H. pose proof (computeNetStateDiff_ok_inv _ _ H) as F.
  rewrite computeNetStateDiff_closed_form in H by assumption.
  injection H as <-.
  set (raws := raws_of stateDiffs).
  assert (L : length (flat_map (net_record raws) (expected_order raws)) =
              length (expected_order raws)).
  { rewrite <- (pairs_of_closed_form raws) at 2.
    unfold pairs_of. rewrite length_map.
    assert (O : Forall one_raw
                  (flat_map (net_record raws) (expected_order raws))).
    { apply Forall_forall. intros sd I.
      apply in_flat_map in I as (p & _ & I). unfold net_record in I.
      destruct (values_on (fst p) (snd p) raws); [|contradiction].
      destruct I as [<-|[]]. reflexivity. }
    induction O as [|sd sds Hsd O IH]; [reflexivity|].
    unfold raws_of in *. simpl. rewrite length_app, <- IH.
    unfold one_raw in Hsd. now rewrite Hsd. }
  assert (R : length raws = length stateDiffs).
  { unfold raws, raws_of. clear L.
    induction F as [|sd sds Hsd F IH]; [reflexivity|].
    simpl. rewrite length_app, IH. unfold one_raw in Hsd.
    now rewrite Hsd. }
  assert (S : length (expected_order raws) =
              length (nodup pair_eq_dec (pairs_of stateDiffs))).
  { apply Nat.le_antisymm; apply NoDup_incl_length.
    - apply expected_order_NoDup.
    - intros p I. apply nodup_In. now apply expected_order_in.
    - apply NoDup_nodup.
    - intros p I. apply nodup_In in I. now apply expected_order_in. }
  rewrite L. split; [exact S|]. split.
  - rewrite <- R.
    replace (length raws) with (length (map pair_of raws))
      by apply length_map.
    apply NoDup_incl_length; [apply expected_order_NoDup|].
    intros p I. now apply expected_order_in.
  - split.
    + intros E. apply (f_equal (@length _)) in E. rewrite L in E. simpl in E.
      destruct stateDiffs as [|sd sds]; [reflexivity|exfalso].
      inversion F as [|? ? Hsd _]; subst. unfold one_raw in Hsd.
      destruct (StateDiff.raw sd) as [|r rs] eqn:Er; [discriminate|].
      assert (I : In (pair_of r) (expected_order raws)).
      { apply expected_order_in. apply in_map.
        unfold raws, raws_of. simpl. rewrite Er. now left. }
      destruct (expected_order raws); [contradiction|discriminate].
    + intros ->. reflexivity.
Qed.

(** ** Merging batch by batch *)

(** An object with distinct names is determined by its names, in order,
    and by what a read of each returns. *)
Lemma object_ext {V : Type} (o1 : JSObject.t V) :
  forall o2 : JSObject.t V,
    JSObject.keys o1 = JSObject.keys o2 ->
    NoDup (JSObject.keys o1) ->
    (forall k, In k (JSObject.keys o1) ->
               JSObject.get o1 k = JSObject.get o2 k) ->
    o1 = o2.
Proof.
  induction o1 as [|[k v1] o1 IH]; intros [|[k2 v2] o2] K ND G;
    try discriminate; [reflexivity|].
  simpl in K. injection K as <- K.
  inversion ND as [|? ? NI ND']; subst.
  assert (E : v1 = v2).
  { specialize (G k (or_introl eq_refl)). simpl in G.
    rewrite Hex_eqb_refl in G. congruence. }
  subst v2. f_equal. apply IH; try assumption.
  intros k' I. specialize (G k' (or_intror I)). simpl in G.
  destruct (Hex_eqb_spec k k') as [->|_]; [contradiction|assumption].
Qed.

Lemma first_seen_app (l1 l2 : list Hex.t) :
  first_seen (l1 ++ l2) =
  first_seen l1
    ++ filter (fun y => negb (existsb (Hex.eqb y) l1)) (first_seen l2).
Proof.
  induction l1 as [|x l1 IH]; simpl.
  - induction (first_seen l2) as [|y l IHl]; simpl; [reflexivity|].
    now rewrite <- IHl.
  - rewrite IH, filter_app. f_equal. f_equal. clear IH.
    induction (first_seen l2) as [|y l IHl]; simpl; [reflexivity|].
    destruct (existsb (Hex.eqb y) l1); simpl.
    + rewrite orb_true_r. simpl. apply IHl.
    + rewrite orb_false_r. destruct (Hex.eqb y x); simpl; now rewrite IHl.
Qed.

Lemma find_app_first {A : Type} (f : A -> bool) (l1 l2 : list A) :
  find f (l1 ++ l2) =
  match find f l1 with
  | Some x => Some x
  | None => find f l2
  end.
Proof.
  induction l1 as [|x l1 IH]; simpl; [reflexivity|].
  now destruct (f x).
Qed.

Lemma values_on_app (a : Address) (k : Slot) (A B : list Raw.t) :
  values_on a k (A ++ B) = values_then (values_on a k A) (values_on a k B).
Proof.
  unfold values_on, first_on, last_on.
  rewrite rev_app_distr, !find_app_first.
  pose proof (find_rev_none (on_pair a k) A) as CA.
  pose proof (find_rev_none (on_pair a k) B) as CB.
  destruct (find (on_pair a k) A) as [fa|];
    destruct (find (on_pair a k) (rev A)) as [la|];
    try (destruct CA as [C1 C2]; (discriminate (C1 eq_refl)
                                  || discriminate (C2 eq_refl)));
    destruct (find (on_pair a k) B) as [fb|];
    destruct (find (on_pair a k) (rev B)) as [lb|];
    try (destruct CB as [C1 C2]; (discriminate (C1 eq_refl)
                                  || discriminate (C2 eq_refl)));
    reflexivity.
Qed.

Lemma net_of_ext (A B : list Raw.t) :
  first_seen (addresses A) = first_seen (addresses B) ->
  (forall a, first_seen (keys_at a A) = first_seen (keys_at a B)) ->
  (forall a k, values_on a k A = values_on a k B) ->
  net_of A = net_of B.
Proof.
  intros KA KK VV. apply object_ext.
  - now rewrite !net_of_keys.
  - rewrite net_of_keys. apply first_seen_NoDup.
  - intros a I.
    assert (S : slots_of (net_of A) a = slots_of (net_of B) a).
    { apply object_ext.
      - now rewrite !net_of_slot_keys.
      - rewrite net_of_slot_keys. apply first_seen_NoDup.
      - intros k _. now rewrite !net_of_values. }
    assert (I' : In a (JSObject.keys (net_of B)))
      by (rewrite net_of_keys, <- KA, <- net_of_keys; exact I).
    unfold slots_of in S.
    destruct (JSObject.get (net_of A) a) as [sa|] eqn:GA.
    2:{ apply get_none_iff in GA. contradiction. }
    destruct (JSObject.get (net_of B) a) as [sb|] eqn:GB.
    2:{ apply get_none_iff in GB. contradiction. }
    now rewrite S.
Qed.

Lemma net_of_app_right (A B B' : list Raw.t) :
  net_of B = net_of B' -> net_of (A ++ B) = net_of (A ++ B').
Proof.
  intros E. apply net_of_ext.
  - unfold addresses. rewrite !map_app, !first_seen_app.
    fold (addresses B) (addresses B').
    now rewrite <- !net_of_keys, E.
  - intros a. unfold keys_at. rewrite !filter_app, !map_app, !first_seen_app.
    fold (keys_at a B) (keys_at a B').
    now rewrite <- !net_of_slot_keys, E.
  - intros a k. rewrite !values_on_app.
    now rewrite <- !(net_of_values _ a k), E.
Qed.

Lemma net_of_app_left (A A' B : list Raw.t) :
  net_of A = net_of A' -> net_of (A ++ B) = net_of (A' ++ B).
Proof. intros E. unfold net_of in *. now rewrite !fold_left_app, E. Qed.

Lemma computeNetStateDiff_net_of (stateDiffs out : list StateDiff.t) :
  computeNetStateDiff stateDiffs = Ok out ->
  Forall one_raw stateDiffs /\ Forall one_raw out /\
  out = to_records (net_of (raws_of stateDiffs)) /\
  net_of (raws_of out) = net_of (raws_of stateDiffs).
Proof.
  intros H. pose proof (computeNetStateDiff_ok_inv _ _ H) as F.
  unfold computeNetStateDiff in H.
  rewrite accumulate_fold in H by assumption. simpl in H.
  injection H as <-. fold (net_of (raws_of stateDiffs)).
  repeat split; try assumption.
  - apply to_records_one_raw.
  - apply net_of_to_records, net_of_normal.
Qed.

(** X3.  Collapsing each batch first and merging the two net diffs gives what
    merging all the entries at once gives: the net diff of a batch stands
    for the batch. *)
Theorem merge_of_net_diffs (xs ys netx nety : list StateDiff.t) :
  computeNetStateDiff xs = Ok netx ->
  computeNetStateDiff ys = Ok nety ->
  computeNetStateDiff (netx ++ nety) = computeNetStateDiff (xs ++ ys) /\
  exists out, computeNetStateDiff (xs ++ ys) = Ok out.
Proof.
  intros Hx Hy.
  destruct (computeNetStateDiff_net_of _ _ Hx) as (Fx & Fnx & _ & Nx).
  destruct (computeNetStateDiff_net_of _ _ Hy) as (Fy & Fny & _ & Ny).
  assert (F : Forall one_raw (xs ++ ys)) by (apply Forall_app; now split).
  assert (Fn : Forall one_raw (netx ++ nety))
    by (apply Forall_app; now split).
  split; [|eexists; now apply computeNetStateDiff_closed_form].
  unfold computeNetStateDiff.
  rewrite !accumulate_fold by assumption. simpl. f_equal. f_equal.
  fold (net_of (raws_of (netx ++ nety))) (net_of (raws_of (xs ++ ys))).
  rewrite !raws_of_app.
  rewrite (net_of_app_left _ _ _ Nx). now apply net_of_app_right.
Qed.

(** * Further properties of the ordering check *)

Lemma in_block_order_far (txData : list TxData.t) :
  in_block_order txData ->
  forall d i x y,
    nth_error txData i = Some x ->
    nth_error txData (i + d) = Some y ->
    (TxData.blockNumber x <= TxData.blockNumber y)%Z.
Proof.
  intros O. induction d as [|d IH]; intros i x y X Y.
  - rewrite Nat.add_0_r in Y. assert (x = y) by congruence. subst. lia.
  - destruct (nth_error_in_range txData (i + d)) as [z Z].
    { assert (i + S d < length txData)%nat
        by (apply nth_error_Some; congruence). lia. }
    specialize (IH i x z X Z).
    replace (i + S d)%nat with (S (i + d)) in Y by lia.
    specialize (O (i + d)%nat z y Z Y). lia.
Qed.

(** X5.  Passing the check, which compares neighbours only, means the block
    numbers never decrease between any two results, however far apart. *)
Theorem ordering_check_passes_iff_sorted (txData : list TxData.t) :
  check_ordering txData = Ok tt <->
  (forall i j bi bj,
      (i <= j)%nat ->
      block_at txData i = Some bi ->
      block_at txData j = Some bj ->
      (bi <= bj)%Z).
Proof.
  rewrite check_ordering_ok. unfold block_at. split.
  - intros O i j bi bj L Bi Bj.
    destruct (nth_error txData i) as [x|] eqn:X; [|discriminate].
    destruct (nth_error txData j) as [y|] eqn:Y; [|discriminate].
    simpl in Bi, Bj. injection Bi as <-. injection Bj as <-.
    apply (in_block_order_far txData O (j - i) i); [assumption|].
    now replace (i + (j - i))%nat with j by lia.
  - intros H i prev cur P C. apply (H i (S i)); [lia| |].
    + now rewrite P.
    + now rewrite C.
Qed.

Lemma check_seq_throw (txData : list TxData.t) (m : nat) :
  forall a e,
    (1 <= a)%nat -> (a + m <= length txData)%nat ->
    check_indices txData (seq a m) = Throw e ->
    exists i prev cur,
      (a <= i < a + m)%nat /\
      nth_error txData (i - 1) = Some prev /\
      nth_error txData i = Some cur /\
      (TxData.blockNumber cur < TxData.blockNumber prev)%Z /\
      e = NotOrdered (TxData.blockNumber prev) (TxData.blockNumber cur) /\
      (forall j p c,
          (a <= j < i)%nat ->
          nth_error txData (j - 1) = Some p ->
          nth_error txData j = Some c ->
          (TxData.blockNumber p <= TxData.blockNumber c)%Z).
Proof.
  induction m as [|m IH]; intros a e A B; simpl; [discriminate|].
  destruct (nth_error_in_range txData a) as [cur C]; [lia|].
  destruct (nth_error_in_range txData (a - 1)) as [prev P]; [lia|].
  rewrite C, P.
  destruct (Z.ltb_spec (TxData.blockNumber cur) (TxData.blockNumber prev))
    as [L|L].
  - intros [= <-]. exists a, prev, cur.
    repeat split; try assumption; try lia.
  - intros H. destruct (IH (S a) e) as (i & p' & c' & R & P' & C' & L' & E & F);
      [lia|lia|assumption|].
    exists i, p', c'. repeat split; try assumption; try lia.
    intros j p c J Pj Cj.
    destruct (Nat.eq_dec j a) as [->|N].
    + rewrite P in Pj. rewrite C in Cj.
      injection Pj as <-. injection Cj as <-. assumption.
    + apply (F j); [lia|assumption|assumption].
Qed.

(** X6.  The error of the check names the leftmost pair of neighbours whose
    block number decreases: no earlier pair decreases. *)
Theorem ordering_error_names_first_decrease
  (txData : list TxData.t) (e : Error) :
  check_ordering txData = Throw e ->
  exists i prev cur,
    nth_error txData i = Some prev /\
    nth_error txData (S i) = Some cur /\
    (TxData.blockNumber cur < TxData.blockNumber prev)%Z /\
    e = NotOrdered (TxData.blockNumber prev) (TxData.blockNumber cur) /\
    (forall j, (j < i)%nat -> ~ decreases_at txData j).
Proof.
  unfold check_ordering. intros H.
  destruct txData as [|t0 rest] eqn:T; [discriminate|]. rewrite <- T in *.
  assert (Len : (1 <= length txData)%nat) by (rewrite T; simpl; lia).
  apply check_seq_throw in H as (i & prev & cur & R & P & C & L & E & F);
    [|lia|lia].
  exists (i - 1)%nat, prev, cur.
  replace (S (i - 1)) with i by lia.
  repeat split; try assumption.
  intros j J (p & c & Pj & Cj & D).
  specialize (F (S j) p c). simpl in F. rewrite Nat.sub_0_r in F.
  assert (TxData.blockNumber p <= TxData.blockNumber c)%Z
    by (apply F; [lia|assumption|assumption]).
  lia.
Qed.

(** * Further properties of the list-file reader *)

Lemma split_nonempty (sep : ascii) (s : string) :
  exists piece pieces, split sep s = piece :: pieces.
Proof.
  destruct s as [|c s]; simpl; [now exists EmptyString, []|].
  destruct (Ascii.eqb c sep); [now eexists; eexists|].
  destruct (split sep s); now eexists; eexists.
Qed.

Lemma split_app_sep (sep : ascii) (a b : string) :
  split sep (a ++ String sep b)%string = split sep a ++ split sep b.
Proof.
  induction a as [|c a IH]; simpl.
  - now rewrite Ascii.eqb_refl.
  - destruct (Ascii.eqb c sep); [now rewrite IH|].
    rewrite IH. destruct (split_nonempty sep a) as (p & ps & ->).
    reflexivity.
Qed.

Lemma join_split (sep : ascii) (s : string) : join sep (split sep s) = s.
Proof.
  induction s as [|c s IH]; [reflexivity|].
  simpl. destruct (split_nonempty sep s) as (p & ps & E).
  rewrite E in *.
  destruct (Ascii.eqb_spec c sep) as [->|N]; destruct ps as [|q qs];
    simpl in *; now rewrite IH.
Qed.

Lemma split_pieces_free (sep : ascii) (s piece : string) :
  In piece (split sep s) -> contains sep piece = false.
Proof.
  revert piece. induction s as [|c s IH]; simpl; intros piece I.
  - destruct I as [<-|[]]. reflexivity.
  - destruct (Ascii.eqb c sep) eqn:E.
    + destruct I as [<-|I]; [reflexivity|auto].
    + destruct (split sep s) as [|p ps].
      * destruct I as [<-|[]]. simpl. now rewrite E.
      * destruct I as [<-|I].
        -- simpl. rewrite E. simpl. apply IH. now left.
        -- apply IH. now right.
Qed.

Lemma split_free (sep : ascii) (s : string) :
  contains sep s = false -> split sep s = [s].
Proof.
  induction s as [|c s IH]; simpl; [reflexivity|].
  intros H. apply orb_false_iff in H as [E H].
  rewrite E, (IH H). reflexivity.
Qed.

Lemma split_join (sep : ascii) (pieces : list string) :
  pieces <> [] ->
  Forall (fun piece => contains sep piece = false) pieces ->
  split sep (join sep pieces) = pieces.
Proof.
  intros NE F. induction F as [|p ps Hp F IH]; [congruence|].
  destruct ps as [|q qs].
  - simpl. now apply split_free.
  - change (join sep (p :: q :: qs))
      with (p ++ String sep (join sep (q :: qs)))%string.
    rewrite split_app_sep, IH by discriminate.
    now rewrite (split_free sep p Hp).
Qed.

(** X7.  Splitting at a separator loses nothing: joining the pieces gives the
    text back, no piece holds the separator, and pieces free of the
    separator come back from their joined text. *)
Theorem split_join_round_trip (sep : ascii) :
  (forall s, join sep (split sep s) = s) /\
  (forall s piece, In piece (split sep s) -> contains sep piece = false) /\
  (forall pieces,
      pieces <> [] ->
      Forall (fun piece => contains sep piece = false) pieces ->
      split sep (join sep pieces) = pieces).
Proof.
  split; [apply join_split|]. split; [apply split_pieces_free|].
  apply split_join.
Qed.

Lemma lines_of_app (a b : string) :
  lines_of (a ++ String newline b)%string = lines_of a ++ lines_of b.
Proof. unfold lines_of. now rewrite split_app_sep, filter_app. Qed.

(** X8.  The list file is read line by line: the lines kept of two texts set one
    after the other with a line feed between are those of the first followed
    by those of the second; so a line feed at the end of the file, or an
    empty line anywhere, adds nothing. *)
Theorem list_file_read_line_by_line (a b : string) :
  lines_of (a ++ String newline b)%string = lines_of a ++ lines_of b /\
  lines_of (a ++ String newline EmptyString)%string = lines_of a /\
  lines_of (a ++ String newline (String newline b))%string =
  lines_of (a ++ String newline b)%string.
Proof.
  split; [apply lines_of_app|]. split.
  - rewrite lines_of_app. unfold lines_of at 2. simpl. apply app_nil_r.
  - rewrite !lines_of_app.
    change (String newline b) with (EmptyString ++ String newline b)%string.
    rewrite lines_of_app. reflexivity.
Qed.

Lemma before_space_free (line : string) :
  contains space (ListFile.before_space line) = false.
Proof.
  induction line as [|c line IH]; simpl; [reflexivity|].
  destruct (Ascii.eqb c space) eqn:E; simpl; [reflexivity|].
  now rewrite E.
Qed.

Lemma before_space_keeps_free (c : ascii) (line : string) :
  contains c line = false ->
  contains c (ListFile.before_space line) = false.
Proof.
  induction line as [|c' line IH]; simpl; [reflexivity|].
  intros H. apply orb_false_iff in H as [E H].
  destruct (Ascii.eqb c' space); simpl; [reflexivity|].
  now rewrite E, IH.
Qed.

Section PipelineFacts.

Variable tenderly : string -> result TxData.t.
Variable readFile : string -> result string.
Variable simulation : string -> result TxData.t.
Variable exists_ : string -> result bool.
Variable mkdir : string -> result unit.
Variable writeFile : string -> list StateDiff.t -> result unit.
Variable basename : string -> string.
Variable extname : string -> string.

Lemma getStateDiff_source (identifier : string) :
  getStateDiff tenderly simulation identifier =
  ([event_of identifier], source tenderly simulation identifier).
Proof.
  unfold getStateDiff, event_of, source.
  destruct (startsWith identifier "0x"); reflexivity.
Qed.

Lemma resolve_each_trace (identifiers : list string) :
  forall txData e,
    In e (fst (resolve_each tenderly simulation identifiers txData)) ->
    exists identifier, In identifier identifiers /\ e = event_of identifier.
Proof.
  induction identifiers as [|identifier rest IH]; intros txData e; simpl.
  - intros [].
  - rewrite getStateDiff_source.
    destruct (source tenderly simulation identifier) as [sim|err]; simpl.
    + destruct (resolve_each tenderly simulation rest (txData ++ [sim]))
        as [tr r] eqn:R. simpl. intros [<-|I].
      * exists identifier. split; [now left|reflexivity].
      * destruct (IH (txData ++ [sim]) e) as (i & Ii & E).
        { now rewrite R. }
        exists i. split; [now right|assumption].
    + intros [<-|[]]. exists identifier. split; [now left|reflexivity].
Qed.

Lemma resolve_each_ok (identifiers : list string) (sims : list TxData.t) :
  Forall2 (fun identifier sim =>
             source tenderly simulation identifier = Ok sim)
    identifiers sims ->
  forall txData,
    resolve_each tenderly simulation identifiers txData =
    (map event_of identifiers, Ok (txData ++ sims)).
Proof.
  induction 1 as [|identifier sim rest sims' H F IH]; intros txData; simpl.
  - unfold io_ret. now rewrite app_nil_r.
  - rewrite getStateDiff_source, H. simpl. rewrite IH.
    now rewrite <- app_assoc.
Qed.

Lemma resolve_each_fail (before : list string) (sims : list TxData.t)
  (failing : string) (after : list string) (e : Error) :
  Forall2 (fun identifier sim =>
             source tenderly simulation identifier = Ok sim)
    before sims ->
  source tenderly simulation failing = Throw e ->
  forall txData,
    resolve_each tenderly simulation (before ++ failing :: after) txData =
    (map event_of (before ++ [failing]), Throw e).
Proof.
  intros F B. induction F as [|identifier sim rest sims' H F IH];
    intros txData; simpl.
  - rewrite getStateDiff_source, B. reflexivity.
  - rewrite getStateDiff_source, H. simpl. now rewrite IH.
Qed.



End PipelineFacts.

(** X9.  Every request of the reading loop is for the text before the first
    space of a kept, non-comment line; that text holds no space and no line
    feed, is fetched remotely when it starts with [0x] and read as a file
    otherwise; and there is at most one request per kept line. *)
Theorem requests_come_from_lines
  (tenderly simulation : string -> result TxData.t)
  (fileContent : string) (txData : list TxData.t) :
  (forall e,
      In e (fst (resolve_lines tenderly simulation (lines_of fileContent)
                   txData)) ->
      exists line,
        In line (lines_of fileContent) /\
        is_comment line = false /\
        e = event_of (ListFile.before_space line) /\
        contains space (ListFile.before_space line) = false /\
        contains newline (ListFile.before_space line) = false) /\
  (length (fst (resolve_lines tenderly simulation (lines_of fileContent)
                  txData))
   <= length (lines_of fileContent))%nat.
Proof.
  rewrite resolve_lines_each. split.
  - intros e I. apply resolve_each_trace in I as (identifier & I & ->).
    apply in_flat_map in I as (line & L & I).
    destruct (is_comment line) eqn:C; [contradiction|].
    destruct I as [<-|[]]. exists line. repeat split; try assumption.
    + apply before_space_free.
    + apply before_space_keeps_free. unfold lines_of in L.
      apply filter_In in L as [L _]. eapply split_pieces_free; eauto.
  - generalize (lines_of fileContent). intros lines. revert txData.
    induction lines as [|line lines IH]; intros txData; simpl; [lia|].
    destruct (is_comment line); simpl.
    + specialize (IH txData). lia.
    + rewrite getStateDiff_source.
      destruct (source tenderly simulation (ListFile.before_space line))
        as [sim|err]; simpl; [|lia].
      specialize (IH (txData ++ [sim])).
      destruct (resolve_each tenderly simulation _ (txData ++ [sim])).
      simpl in *. lia.
Qed.

(** X10.  A line that begins with a space is not trimmed: the text before its
    first space is empty, so the empty path is read as a simulation file. *)
Theorem leading_space_reads_empty_path
  (tenderly simulation : string -> result TxData.t)
  (rest : string) (txData : list TxData.t) :
  resolve_lines tenderly simulation [String space rest] txData =
  ([ReadFile EmptyString],
   match simulation EmptyString with
   | Ok sim => Ok (txData ++ [sim])
   | Throw e => Throw e
   end).
Proof.
  rewrite resolve_lines_each.
  assert (E : flat_map (fun line => if is_comment line then []
                                    else [ListFile.before_space line])
                [String space rest] = [EmptyString]).
  { unfold is_comment, startsWith, space. reflexivity. }
  rewrite E. cbn [resolve_each]. rewrite getStateDiff_source.
  unfold source, event_of, startsWith. simpl.
  destruct (simulation EmptyString); reflexivity.
Qed.

(** X11.  When every identifier resolves, the requests are made in file order,
    one per identifier, and the results are kept in that same order. *)
Theorem resolutions_in_file_order
  (tenderly simulation : string -> result TxData.t)
  (fileContent : string) (sims txData : list TxData.t) :
  Forall2 (fun identifier sim =>
             source tenderly simulation identifier = Ok sim)
    (ListFile.identifiers fileContent) sims ->
  resolve_lines tenderly simulation (lines_of fileContent) txData =
  (map event_of (ListFile.identifiers fileContent), Ok (txData ++ sims)).
Proof.
  intros F. rewrite resolve_lines_each, lines_of_identifiers.
  now apply resolve_each_ok.
Qed.

(** X12.  Resolution stops at the first identifier that fails: its error is the
    outcome, it is the last request made, and nothing after it in the file
    is requested. *)
Theorem resolution_stops_at_first_failure
  (tenderly simulation : string -> result TxData.t)
  (fileContent : string) (before : list string) (sims : list TxData.t)
  (failing : string) (after : list string) (e : Error)
  (txData : list TxData.t) :
  ListFile.identifiers fileContent = before ++ failing :: after ->
  Forall2 (fun identifier sim =>
             source tenderly simulation identifier = Ok sim)
    before sims ->
  source tenderly simulation failing = Throw e ->
  resolve_lines tenderly simulation (lines_of fileContent) txData =
  (map event_of (before ++ [failing]), Throw e).
Proof.
  intros I F B. rewrite resolve_lines_each, lines_of_identifiers, I.
  now apply resolve_each_fail with (sims := sims).
Qed.

(** * Further properties of a run *)



Section RunFacts.

Variable tenderly : string -> result TxData.t.
Variable readFile : string -> result string.
Variable simulation : string -> result TxData.t.
Variable exists_ : string -> result bool.
Variable mkdir : string -> result unit.
Variable writeFile : string -> list StateDiff.t -> result unit.
Variable basename : string -> string.
Variable extname : string -> string.


End RunFacts.


(** X14.  A readable list file that yields no identifier (empty, or only
    empty lines and comments) is no error in itself: nothing is requested,
    the merge runs on the empty input, and the run goes on to look up the
    output directory, make it when missing, and hand the empty net diff to
    [writeFile]; it ends as the first of these calls that fails, or else as
    the write does. *)
Theorem empty_list_file_writes_empty_diff
  (tenderly : string -> result TxData.t)
  (readFile : string -> result string)
  (simulation : string -> result TxData.t)
  (exists_ : string -> result bool)
  (mkdir : string -> result unit)
  (writeFile : string -> list StateDiff.t -> result unit)
  (basename extname : string -> string)
  (filePath fileContent : string) :
  truthy filePath = true ->
  readFile filePath = Ok fileContent ->
  ListFile.identifiers fileContent = [] ->
  main tenderly readFile simulation exists_ mkdir writeFile
    basename extname (Some filePath) =
  match exists_ outDir with
  | Throw e => ([ReadFile filePath; Merge []; FsExists outDir], Throw e)
  | Ok true =>
      ([ReadFile filePath; Merge []; FsExists outDir;
        WriteFile (outfile basename extname filePath) []],
       writeFile (outfile basename extname filePath) [])
  | Ok false =>
      match mkdir outDir with
      | Throw e =>
          ([ReadFile filePath; Merge []; FsExists outDir; FsMkdir outDir],
           Throw e)
      | Ok _ =>
          ([ReadFile filePath; Merge []; FsExists outDir; FsMkdir outDir;
            WriteFile (outfile basename extname filePath) []],
           writeFile (outfile basename extname filePath) [])
      end
  end.
Proof.
  intros T RF I. unfold main. rewrite T. simpl. rewrite RF. simpl.
  rewrite resolve_lines_each, lines_of_identifiers, I.
  cbn [resolve_each io_ret io_bind check_ordering check_indices length
         Nat.sub seq lift flat_map].
  change (computeNetStateDiff []) with (@Ok (list StateDiff.t) []).
  cbn [io_bind emit lift app].
  rewrite write_output_cases.
  destruct (exists_ outDir) as [[|]|e]; try reflexivity.
  destruct (mkdir outDir) as [[]|e]; reflexivity.
Qed.

(** ** The name of the output file, characterised *)

Lemma prefix_app (p post : string) : String.prefix p (p ++ post) = true.
Proof.
  induction p as [|c p IH]; simpl; [now destruct post|].
  destruct (ascii_dec c c) as [_|N]; [assumption|congruence].
Qed.

Lemma prefix_inv (p s : string) :
  String.prefix p s = true -> exists post, s = (p ++ post)%string.
Proof.
  revert s. induction p as [|c p IH]; intros s H.
  - now exists s.
  - destruct s as [|c' s]; simpl in H; [discriminate|].
    destruct (ascii_dec c c') as [<-|N]; [|discriminate].
    destruct (IH s H) as [post ->]. now exists post.
Qed.

Lemma drop_app (p post : string) :
  drop (String.length p) (p ++ post) = post.
Proof.
  induction p as [|c p IH]; simpl; [now destruct post|assumption].
Qed.

Lemma string_app_assoc (a b c : string) :
  ((a ++ b) ++ c = a ++ b ++ c)%string.
Proof. induction a as [|x a IH]; simpl; [reflexivity|now rewrite IH]. Qed.

Lemma remove_first_empty (s : string) : remove_first EmptyString s = s.
Proof. destruct s; reflexivity. Qed.

Lemma remove_first_occurrence (pattern : string) (before : string) :
  forall s after,
    s = (before ++ pattern ++ after)%string ->
    (forall before' after',
        s = (before' ++ pattern ++ after')%string ->
        (String.length before <= String.length before')%nat) ->
    remove_first pattern s = (before ++ after)%string.
Proof.
  induction before as [|c before IH]; intros s after E M.
  - simpl in E. subst s. destruct (pattern ++ after)%string eqn:PA.
    + destruct pattern; [|discriminate]. simpl in PA. now subst.
    + cbn [remove_first]. rewrite <- PA, prefix_app, drop_app. reflexivity.
  - simpl in E. subst s. cbn [remove_first].
    change (String c before ++ after)%string
      with (String c (before ++ after)%string).
    destruct (String.prefix pattern
                (String c (before ++ pattern ++ after))) eqn:P.
    + apply prefix_inv in P as [post P].
      specialize (M EmptyString post P). simpl in M. lia.
    + f_equal. apply (IH _ after eq_refl). intros before' after' E'.
      specialize (M (String c before') after'). simpl in M.
      rewrite E' in M. specialize (M eq_refl). lia.
Qed.

(** X15.  The output file is [out/net-state-diff-NAME.json], where NAME is the
    base name of the list file with the first occurrence of its extension
    removed: the base name itself when there is no extension. *)
Theorem output_file_name
  (basename extname : string -> string) (filePath : string) :
  (extname filePath = EmptyString ->
   outfile basename extname filePath =
   ("out/net-state-diff-" ++ basename filePath ++ ".json")%string) /\
  (forall before after,
      basename filePath = (before ++ extname filePath ++ after)%string ->
      (forall before' after',
          basename filePath = (before' ++ extname filePath ++ after')%string ->
          (String.length before <= String.length before')%nat) ->
      outfile basename extname filePath =
      ("out/net-state-diff-" ++ before ++ after ++ ".json")%string).
Proof.
  unfold outfile, outDir. split.
  - intros ->. now rewrite remove_first_empty.
  - intros before after E M.
    rewrite (remove_first_occurrence _ before _ after E M).
    rewrite string_app_assoc. reflexivity.
Qed.

(** * Worked instances of the further properties *)

(** The header example under other entry addresses and decoded fields. *)
Lemma merge_reads_raw_lists_only_witness :
  map StateDiff.raw Example.transactions =
    map StateDiff.raw Scenario.relabelled /\
  computeNetStateDiff Example.transactions = Ok Example.net /\
  computeNetStateDiff Scenario.relabelled = Ok Example.net.
Proof.
  split; [reflexivity|]. split; [reflexivity|].
  apply (proj1 merge_reads_raw_lists_only Example.transactions
           Scenario.relabelled Example.net); reflexivity.
Defined.

(** An entry without raw diff, before one with two. *)
Lemma merge_reports_first_bad_entry_witness :
  Forall (fun sd => length (StateDiff.raw sd) = 1%nat) Example.transactions /\
  length (StateDiff.raw Example.no_raw) <> 1%nat /\
  computeNetStateDiff
    (Example.transactions ++ Example.no_raw :: [Scenario.two_raws]) =
  Throw (UnexpectedRawCount Example.no_raw).
Proof.
  assert (F : Forall (fun sd => length (StateDiff.raw sd) = 1%nat)
                Example.transactions) by (repeat constructor).
  assert (B : length (StateDiff.raw Example.no_raw) <> 1%nat)
    by (simpl; discriminate).
  split; [exact F|]. split; [exact B|].
  exact (merge_reports_first_bad_entry Example.transactions Example.no_raw
           [Scenario.two_raws] F B).
Defined.

(** Four entries on three pairs give three records. *)
Lemma net_diff_size_witness :
  computeNetStateDiff Example.transactions = Ok Example.net /\
  (length Example.net <= length Example.transactions)%nat.
Proof.
  split; [reflexivity|].
  exact (proj1 (proj2 (net_diff_size Example.transactions Example.net
                         eq_refl))).
Defined.

(** The header example run twice in a row. *)
Lemma merge_of_net_diffs_witness :
  computeNetStateDiff Example.transactions = Ok Example.net /\
  computeNetStateDiff (Example.net ++ Example.net) =
  computeNetStateDiff (Example.transactions ++ Example.transactions).
Proof.
  split; [reflexivity|].
  exact (proj1 (merge_of_net_diffs Example.transactions Example.transactions
                  Example.net Example.net eq_refl eq_refl)).
Defined.

(** Blocks 5, 5, 7: the first and the last are in order. *)
Lemma ordering_check_passes_iff_sorted_witness :
  check_ordering (Example.blocks [5; 5; 7]%Z) = Ok tt /\ (5 <= 7)%Z.
Proof.
  split; [reflexivity|].
  apply (proj1 (ordering_check_passes_iff_sorted
                  (Example.blocks [5; 5; 7]%Z)) eq_refl 0%nat 2%nat);
    [repeat constructor|reflexivity|reflexivity].
Defined.

(** Blocks 5, 4, 3: the error is about 5 and 4. *)
Lemma ordering_error_names_first_decrease_witness :
  check_ordering (Example.blocks [5; 4; 3]%Z) = Throw (NotOrdered 5 4) /\
  exists i prev cur,
    nth_error (Example.blocks [5; 4; 3]%Z) i = Some prev /\
    nth_error (Example.blocks [5; 4; 3]%Z) (S i) = Some cur /\
    (TxData.blockNumber cur < TxData.blockNumber prev)%Z /\
    NotOrdered 5 4 =
      NotOrdered (TxData.blockNumber prev) (TxData.blockNumber cur) /\
    (forall j, (j < i)%nat -> ~ decreases_at (Example.blocks [5; 4; 3]%Z) j).
Proof.
  split; [reflexivity|].
  exact (ordering_error_names_first_decrease
           (Example.blocks [5; 4; 3]%Z) (NotOrdered 5 4) eq_refl).
Defined.

(** Two pieces joined by a line feed and split again. *)
Lemma split_join_round_trip_witness :
  ["0xaa"; "0xbb # second"] <> [] /\
  Forall (fun piece => contains newline piece = false)
    ["0xaa"; "0xbb # second"] /\
  split newline (join newline ["0xaa"; "0xbb # second"]) =
  ["0xaa"; "0xbb # second"].
Proof.
  assert (N : ["0xaa"; "0xbb # second"] <> []) by discriminate.
  assert (F : Forall (fun piece => contains newline piece = false)
                ["0xaa"; "0xbb # second"]) by (repeat constructor).
  split; [exact N|]. split; [exact F|].
  exact (proj2 (proj2 (split_join_round_trip newline)) _ N F).
Defined.

(** The second request of the ordered list file. *)
Lemma requests_come_from_lines_witness :
  In (Fetch "0xbb")
    (fst (resolve_lines Example.tenderly Example.simulation
            (lines_of Example.in_order) [])) /\
  exists line,
    In line (lines_of Example.in_order) /\
    is_comment line = false /\
    Fetch "0xbb" = event_of (ListFile.before_space line) /\
    contains space (ListFile.before_space line) = false /\
    contains newline (ListFile.before_space line) = false.
Proof.
  assert (I : In (Fetch "0xbb")
                (fst (resolve_lines Example.tenderly Example.simulation
                        (lines_of Example.in_order) [])))
    by (right; left; reflexivity).
  split; [exact I|].
  exact (proj1 (requests_come_from_lines Example.tenderly Example.simulation
                  Example.in_order []) _ I).
Defined.

(** The ordered list file: two fetches, two results. *)
Lemma resolutions_in_file_order_witness :
  Forall2 (fun identifier sim =>
             source Example.tenderly Example.simulation identifier = Ok sim)
    (ListFile.identifiers Example.in_order) (Example.blocks [5; 7]%Z) /\
  resolve_lines Example.tenderly Example.simulation
    (lines_of Example.in_order) [] =
  ([Fetch "0xaa"; Fetch "0xbb"], Ok (Example.blocks [5; 7]%Z)).
Proof.
  assert (F : Forall2
                (fun identifier sim =>
                   source Example.tenderly Example.simulation identifier
                   = Ok sim)
                (ListFile.identifiers Example.in_order)
                (Example.blocks [5; 7]%Z))
    by (repeat constructor).
  split; [exact F|].
  exact (resolutions_in_file_order Example.tenderly Example.simulation
           Example.in_order (Example.blocks [5; 7]%Z) [] F).
Defined.

(** The unknown hash stops the run before the third line. *)
Lemma resolution_stops_at_first_failure_witness :
  ListFile.identifiers Scenario.failing_list = ["0xaa"] ++ "0xdd" :: ["0xbb"] /\
  resolve_lines Example.tenderly Example.simulation
    (lines_of Scenario.failing_list) [] =
  ([Fetch "0xaa"; Fetch "0xdd"], Throw (ResolutionFailed "0xdd")).
Proof.
  split; [reflexivity|].
  apply (resolution_stops_at_first_failure Example.tenderly
           Example.simulation Scenario.failing_list ["0xaa"]
           (Example.blocks [5]%Z) "0xdd" ["0xbb"]);
    [reflexivity|repeat constructor|reflexivity].
Defined.


(** A list file of comments and empty lines, in a directory without [out]. *)
Lemma empty_list_file_writes_empty_diff_witness :
  truthy "empty.txt" = true /\
  Scenario.readFile "empty.txt" = Ok Scenario.comments_only /\
  ListFile.identifiers Scenario.comments_only = [] /\
  main Example.tenderly Scenario.readFile Example.simulation
    Example.exists_ Example.mkdir Example.writeFile
    Example.basename Example.extname (Some "empty.txt") =
  ([ReadFile "empty.txt"; Merge []; FsExists "out"; FsMkdir "out";
    WriteFile "out/net-state-diff-empty.json" []],
   Ok tt).
Proof.
  split; [reflexivity|]. split; [reflexivity|]. split; [reflexivity|].
  exact (empty_list_file_writes_empty_diff Example.tenderly
           Scenario.readFile Example.simulation
           Example.exists_ Example.mkdir Example.writeFile
           Example.basename Example.extname
           "empty.txt" Scenario.comments_only eq_refl eq_refl eq_refl).
Defined.

(** [data/op.txt] gives [out/net-state-diff-op.json]. *)
Lemma output_file_name_witness :
  outfile Scenario.basename Scenario.extname "data/op.txt" =
  "out/net-state-diff-op.json".
Proof.
  apply (proj2 (output_file_name Scenario.basename Scenario.extname
                  "data/op.txt") "op" EmptyString).
  - reflexivity.
  - intros before' after' H. unfold Scenario.basename, Scenario.extname in H.
    destruct before' as [|c1 before']; [discriminate H|].
    destruct before' as [|c2 before'];
      [simpl in H; injection H as _ H; discriminate H|].
    simpl. lia.
Defined.
